(** * docusaurus-search-local: the server side of the search plugin

    A shallow embedding of the server module of the plugin (the constructor
    [cmfcmfDocusaurusSearchLocal] and its [postBuild] hook) and of the route
    filter of the first JavaScript version, [src/index.js].

    Conventions.
    - Routes, paths and generated module text are [string]s.  The source only
      compares them, appends to them and cuts a leading or trailing [/], which
      reads the same on UTF-8 bytes as on UTF-16 code units.
    - Text handed to the generated [zh] tokenizer is a list of UTF-16 code
      units, because [trim], [toLowerCase] and the separator pattern look at
      single code units.
    - A [throw] is the [Throw] outcome of the [Result] monad.
    - Document ids are JavaScript numbers counted up from 1; they are [nat]
      here (the counter stays far below 2^53). *)

From stdpp Require Import gmap strings list fin_maps pretty sorting.
From Stdlib Require Import QArith.QArith_base.

Close Scope Q_scope.
Local Open Scope stdpp_scope.

(** ** Exceptions and the result monad *)

Inductive Error : Type :=
  | PrefixStartsWithSlash (url prefix : string)
  | PrefixEndsWithSlash (url prefix : string)
  | RouteOutsideBaseUrl (baseUrl route : string)
  | NoDocsPlugin
  | NoBlogPlugin
  | NoPagesPlugin
  | LanguageJpDeprecated
  | SeparatorNotSupported
  | ReadFailed (file : string)
  | ReadPending (file : string)
  | BasePathWithoutSlash (option_name received : string)
  | ReferenceError (variable : string).

Inductive Result (A : Type) : Type :=
  | Ok (a : A)
  | Throw (e : Error).
Arguments Ok {A} a.
Arguments Throw {A} e.

Definition bind {A B} (r : Result A) (k : A → Result B) : Result B :=
  match r with
  | Ok a => k a
  | Throw e => Throw e
  end.

Notation "'let!' x ':=' r 'in' k" := (bind r (λ x, k))
  (at level 10, x pattern, r at level 100, k at level 200, only parsing).

Fixpoint mapM {A B} (f : A → Result B) (l : list A) : Result (list B) :=
  match l with
  | [] => Ok []
  | a :: l' => let! b := f a in let! bs := mapM f l' in Ok (b :: bs)
  end.

Definition is_ok {A} (r : Result A) : bool :=
  match r with Ok _ => true | Throw _ => false end.

(** ** String methods used by the source *)

(** [s.startsWith(p)] *)
Fixpoint startsWith (s p : string) {struct p} : bool :=
  match p with
  | EmptyString => true
  | String c p' =>
      match s with
      | EmptyString => false
      | String d s' => if Ascii.eqb d c then startsWith s' p' else false
      end
  end.

(** [s.endsWith(p)]: some suffix of [s] is [p]. *)
Fixpoint endsWith (s p : string) : bool :=
  String.eqb s p ||
  match s with
  | EmptyString => false
  | String _ s' => endsWith s' p
  end.

(** [s.slice(1)] *)
Definition slice_from_1 (s : string) : string :=
  match s with
  | EmptyString => EmptyString
  | String _ s' => s'
  end.

(** [s.slice(0, -1)] *)
Fixpoint slice_to_last (s : string) : string :=
  match s with
  | EmptyString => EmptyString
  | String c EmptyString => EmptyString
  | String c s' => String c (slice_to_last s')
  end.

(** [s.substring(n)] *)
Fixpoint substring_from (n : nat) (s : string) : string :=
  match n, s with
  | O, _ => s
  | S n', String _ s' => substring_from n' s'
  | S _, EmptyString => EmptyString
  end.

(** [l.join(sep)] on an array of strings *)
Fixpoint join (sep : string) (l : list string) : string :=
  match l with
  | [] => ""
  | [x] => x
  | x :: l' => x +:+ sep +:+ join sep l'
  end.

(** The double quote and the line feed, which string literals here do not
    hold. *)
Definition dq : string := String (Ascii.ascii_of_nat 34) EmptyString.
Definition nl : string := String (Ascii.ascii_of_nat 10) EmptyString.

(** ** Path helpers of the server module *)

Definition urlMatchesPrefix (url prefix : string) : Result bool :=
  if startsWith prefix "/" then Throw (PrefixStartsWithSlash url prefix)
  else if endsWith prefix "/" then Throw (PrefixEndsWithSlash url prefix)
  else Ok (String.eqb prefix "" || String.eqb url prefix
           || startsWith url (prefix +:+ "/")).

Definition trimLeadingSlash (path : string) : string :=
  if String.eqb path "" || negb (startsWith path "/") then path
  else slice_from_1 path.

Definition trimTrailingSlash (path : string) : string :=
  if String.eqb path "" || negb (endsWith path "/") then path
  else slice_to_last path.

(** ** JavaScript strings as UTF-16 code units *)

Definition codeunit : Type := N.
Definition jsstring : Type := list codeunit.

(** WhiteSpace and LineTerminator of ECMAScript: what [trim] strips and what
    [\s] matches. *)
Definition isWhiteSpace (c : codeunit) : bool :=
  ((9 <=? c) && (c <=? 13) || (c =? 32) || (c =? 160) || (c =? 5760)
   || (8192 <=? c) && (c <=? 8202) || (c =? 8232) || (c =? 8233)
   || (c =? 8239) || (c =? 8287) || (c =? 12288) || (c =? 65279))%N.

Fixpoint trimStart (s : jsstring) : jsstring :=
  match s with
  | [] => []
  | c :: s' => if isWhiteSpace c then trimStart s' else s
  end.

Definition trimEnd (s : jsstring) : jsstring := rev (trimStart (rev s)).

(** [s.trim()] *)
Definition trim (s : jsstring) : jsstring := trimEnd (trimStart s).

(** The lowercase mapping of one code unit, for the blocks whose capitals
    map to a single code unit at a fixed distance: Basic Latin, Latin-1,
    Greek and Cyrillic.  Every other code unit, the caseless CJK ideographs
    among them, is left as it is. *)
Definition toLowerCaseUnit (c : codeunit) : codeunit :=
  (if (65 <=? c) && (c <=? 90) then c + 32
   else if (192 <=? c) && (c <=? 222) && negb (c =? 215) then c + 32
   else if (913 <=? c) && (c <=? 939) && negb (c =? 930) then c + 32
   else if (1040 <=? c) && (c <=? 1071) then c + 32
   else if (1024 <=? c) && (c <=? 1039) then c + 80
   else c)%N.

(** [s.toLowerCase()] *)
Definition toLowerCase (s : jsstring) : jsstring := map toLowerCaseUnit s.

(** A regular expression object, as far as the plugin uses one: its source
    text ([toString]) and what [String.prototype.split] does with it. *)
Record RegExp : Type := {
  regexToString : string;
  regexSplit : jsstring → list jsstring
}.

(** [s.split(re)] for a pattern [re] that matches the non-empty runs of the
    code units in [sep]: the pieces between the runs, with an empty piece
    before a leading run and after a trailing one.  [cur] holds the piece
    being read, last unit first. *)
Fixpoint split_runs (sep : codeunit → bool) (cur : jsstring) (in_run : bool)
    (s : jsstring) : list jsstring :=
  match s with
  | [] => [rev cur]
  | c :: s' =>
      if sep c then
        if in_run then split_runs sep cur true s'
        else rev cur :: split_runs sep [] true s'
      else split_runs sep (c :: cur) false s'
  end.

Definition isSeparatorUnit (c : codeunit) : bool :=
  isWhiteSpace c || (c =? 45)%N.

(** The literal [/[\s\-]+/]. *)
Definition defaultSeparator : RegExp :=
  {| regexToString := "/[\s\-]+/";
     regexSplit := split_runs isSeparatorUnit [] false |}.

(** ** Plugin options *)

Inductive LanguageOption : Type :=
  | LangCode (code : string)
  | LangList (codes : list string).

Record LunrOptions : Type := {
  tokenizerSeparator : option RegExp;
  k1 : Q;
  b : Q;
  titleBoost : Q;
  contentBoost : Q;
  tagsBoost : Q;
  parentCategoriesBoost : Q
}.

Record MyOptions : Type := {
  indexDocs : bool;
  indexDocSidebarParentCategories : nat;
  includeParentCategoriesInPageTitle : bool;
  indexBlog : bool;
  indexPages : bool;
  language : LanguageOption;
  style_none : bool;
  maxSearchResults : nat;
  filterByPathName : bool;
  subPath : Z;
  lunr : LunrOptions
}.

Definition with_language (l : LanguageOption) (o : MyOptions) : MyOptions :=
  {| indexDocs := indexDocs o;
     indexDocSidebarParentCategories := indexDocSidebarParentCategories o;
     includeParentCategoriesInPageTitle := includeParentCategoriesInPageTitle o;
     indexBlog := indexBlog o;
     indexPages := indexPages o;
     language := l;
     style_none := style_none o;
     maxSearchResults := maxSearchResults o;
     filterByPathName := filterByPathName o;
     subPath := subPath o;
     lunr := lunr o |}.

(** ** The plugin constructor [cmfcmfDocusaurusSearchLocal] *)

(** What the constructor leaves behind: the variables it destructures from
    its options and its hooks close over ([language] as reassigned), the
    text of the generated client module, and its effects on the build-side
    [lunr] object (the separator it assigns and the extension modules it
    registers through [require(m)(lunr)], in order). *)
Record PluginInstance : Type := {
  plugin_options : MyOptions;
  generated : string;
  lunr_separator : option RegExp;
  lunr_modules : list string
}.

(** [if (Array.isArray(language) && language.length === 1) language = language[0]] *)
Definition normalizeLanguage (l : LanguageOption) : LanguageOption :=
  match l with
  | LangList [code] => LangCode code
  | _ => l
  end.

Definition language_is (l : LanguageOption) (code : string) : bool :=
  match l with
  | LangCode c => String.eqb c code
  | LangList _ => false
  end.

Definition require_line (module : string) : string :=
  "require(" +:+ dq +:+ module +:+ dq +:+ ")(lunr);" +:+ nl.

(** [handleLangCode]: the modules it registers and the text it returns. *)
Definition handleLangCode (code : string) : Result (list string * string) :=
  if String.eqb code "jp" then Throw LanguageJpDeprecated
  else
    let '(mods, gen) :=
      if String.eqb code "ja" then
        (["lunr-languages/tinyseg"], require_line "lunr-languages/tinyseg")
      else if String.eqb code "th" || String.eqb code "hi" then
        (["lunr-languages/wordcut"],
         "lunr.wordcut = require(" +:+ dq +:+ "lunr-languages/wordcut"
           +:+ dq +:+ ");" +:+ nl)
      else ([], "") in
    Ok (mods ++ ["lunr-languages/lunr." +:+ code],
        gen +:+ require_line ("lunr-languages/lunr." +:+ code)).

(** The [forEach] over the codes other than ["en"], appending to the modules
    and text so far. *)
Fixpoint handleLangCodes (codes : list string) (acc : list string * string)
    : Result (list string * string) :=
  match codes with
  | [] => Ok acc
  | code :: codes' =>
      let! r := handleLangCode code in
      handleLangCodes codes' (acc.1 ++ r.1, acc.2 +:+ r.2)
  end.

(** The text of the three exported tokenizers. *)
Definition zh_tokenizer_text (sep : RegExp) : string :=
  "export const tokenize = (input) => input.trim().toLowerCase()" +:+ nl
  +:+ "  .split(" +:+ regexToString sep +:+ ")" +:+ nl
  +:+ "  .filter(each => !!each);" +:+ nl.

Definition segmenting_tokenizer_text (code : string) : string :=
  "export const tokenize = (input) => lunr[" +:+ dq +:+ code +:+ dq
  +:+ "].tokenizer(input)" +:+ nl
  +:+ "  .map(token => token" +:+ (if String.eqb code "th" then "" else ".str")
  +:+ ");" +:+ nl.

Definition default_tokenizer_text : string :=
  "export const tokenize = (input) => lunr.tokenizer(input)" +:+ nl
  +:+ "  .map(token => token.str);" +:+ nl.

(** The start of the generated module, up to the [require] of lunr. *)
Definition generated_head (options : MyOptions) : string :=
  let generated :=
    "// THIS FILE IS AUTOGENERATED" +:+ nl +:+ "// DO NOT EDIT THIS FILE!"
    +:+ nl +:+ nl in
  let generated :=
    if style_none options then generated
    else generated
         +:+ "import " +:+ dq +:+ "@algolia/autocomplete-theme-classic" +:+ dq
         +:+ ";" +:+ nl
         +:+ "import " +:+ dq +:+ "./index.css" +:+ dq +:+ ";" +:+ nl in
  generated +:+ "const lunr = require(" +:+ dq +:+ "../../../lunr.js" +:+ dq
  +:+ ");" +:+ nl.

(** The block [if (language !== "en") { ... }]: the modules registered and
    the text after it. *)
Definition load_languages (language : LanguageOption) (generated : string)
    : Result (list string * string) :=
  if language_is language "en" then Ok ([], generated)
  else
    let st := (["lunr-languages/lunr.stemmer.support"],
               generated +:+ require_line "lunr-languages/lunr.stemmer.support") in
    match language with
    | LangList codes =>
        let! st := handleLangCodes (filter (λ code, code ≠ "en") codes) st in
        Ok (st.1 ++ ["lunr-languages/lunr.multi"],
            st.2 +:+ require_line "lunr-languages/lunr.multi")
    | LangCode code =>
        let! r := handleLangCode code in
        Ok (st.1 ++ r.1, st.2 +:+ r.2)
    end.

(** The chain [if (language === "zh") ... else if (language === "ja" ||
    language === "th") ... else ...] that appends the exported tokenizer. *)
Definition export_tokenizer (language : LanguageOption)
    (lunrTokenizerSeparator : option RegExp) (generated : string)
    : Result string :=
  if language_is language "zh" then
    Ok (generated
        +:+ zh_tokenizer_text (default defaultSeparator lunrTokenizerSeparator))
  else if language_is language "ja" || language_is language "th" then
    match lunrTokenizerSeparator with
    | Some _ => Throw SeparatorNotSupported
    | None =>
        Ok (generated
            +:+ segmenting_tokenizer_text
                  (match language with LangCode c => c | LangList _ => "" end))
    end
  else
    Ok ((match lunrTokenizerSeparator with
         | Some sep =>
             generated +:+ "lunr.tokenizer.separator = "
             +:+ regexToString sep +:+ ";" +:+ nl
         | None => generated
         end) +:+ default_tokenizer_text).

Definition cmfcmfDocusaurusSearchLocal (options : MyOptions)
    : Result PluginInstance :=
  let lunrTokenizerSeparator := tokenizerSeparator (lunr options) in
  let language := normalizeLanguage (language options) in
  let! loaded := load_languages language (generated_head options) in
  let! generated := export_tokenizer language lunrTokenizerSeparator loaded.2 in
  Ok {| plugin_options := with_language language options;
        generated := generated +:+ "export const mylunr = lunr;" +:+ nl;
        lunr_separator := lunrTokenizerSeparator;
        lunr_modules := loaded.1 |}.

(** The tokenizer that [zh_tokenizer_text] exports, on code units:
    [input.trim().toLowerCase().split(sep).filter(each => !!each)]. *)
Definition tokenize_zh (sep : RegExp) (input : jsstring) : list jsstring :=
  filter (λ each, each ≠ []) (regexSplit sep (toLowerCase (trim input))).


(** ** Data of the [postBuild] hook *)

(** The [type] of a route: ["docs"], ["blog"] or ["page"]. *)
Inductive ContentType : Type := Docs | Blog | Page.

#[global] Instance ContentType_eq_dec : EqDecision ContentType.
Proof. solve_decision. Defined.

(** The options of a content plugin that the hook reads. *)
Record PluginOptions : Type := {
  opt_id : string;
  routeBasePath : string;
  tagsBasePath : string
}.

Record LoadedPlugin : Type := {
  name : string;
  options : PluginOptions
}.

(** The properties Docusaurus passes to [postBuild].  [trailingSlash] is
    [None] when the site configuration leaves it undefined. *)
Record Props : Type := {
  routesPaths : list string;
  outDir : string;
  baseUrl : string;
  trailingSlash : option bool;
  plugins : list LoadedPlugin
}.

(** A route that the filter keeps: [{ route, url, type }]. *)
Record Classified : Type := {
  route : string;
  url : string;
  type : ContentType
}.

(** [{ file, url, type }] *)
Module Entry.
Record t : Type := { file : string; url : string; type : ContentType }.
End Entry.

(** One section of a page, as [html2text] returns it. *)
Record PageSection : Type := {
  hash : string;
  title : string;
  content : string;
  tags : list string
}.

(** The result of [html2text]. *)
Module Parsed.
Record t : Type := {
  pageTitle : string;
  sections : list PageSection;
  docSidebarParentCategories : option (list string)
}.
End Parsed.

(** The documents that [postBuild] gathers. *)
Module Doc.
Record t : Type := {
  id : nat;
  pageTitle : string;
  pageRoute : string;
  sectionRoute : string;
  sectionTitle : string;
  sectionContent : string;
  sectionTags : list string;
  docusaurusTag : string;
  docSidebarParentCategories : option (list string);
  type : ContentType
}.
End Doc.

(** [MyDocument]: what the artifact lists for a document. *)
Module Summary.
Record t : Type := {
  id : nat;
  pageTitle : string;
  sectionTitle : string;
  sectionRoute : string;
  type : ContentType
}.
End Summary.

(** ** The [lunr] builder *)

(** Modelled from the spec: the index library [lunr.js] is not part of the
    server module.  The specification says of it that every document is
    registered under its id, converted to a string reference, with its title,
    content, tags and, when present, ancestor-category text; the index is
    therefore the builder's configuration and, in the order of the calls of
    [add], the records it was given. *)
Module Lunr.
Inductive Use : Type :=
  | UseNothing
  | UseLanguage (code : string)
  | UseMultiLanguage (codes : list string).

Record Added : Type := {
  id : string;
  title : string;
  content : string;
  tags : list string;
  sidebarParentCategories : option string
}.

Record Index : Type := {
  use : Use;
  k1 : Q;
  b : Q;
  ref : string;
  fields : list string;
  added : list Added
}.

(** The references that occur in an index. *)
Definition refs (i : Index) : list string := map id (added i).
End Lunr.

(** [{ documents, index }], the value given to [JSON.stringify]. *)
Record SearchArtifact : Type := {
  documents : list Summary.t;
  index : Lunr.Index
}.

(** ** [Map] objects, as [buildPluginMap] uses them *)

(** [m.set(k, v)]: a key that is present keeps its place. *)
Fixpoint Map_set {V} (k : string) (v : V) (m : list (string * V))
    : list (string * V) :=
  match m with
  | [] => [(k, v)]
  | (k', v') :: m' =>
      if String.eqb k' k then (k, v) :: m' else (k', v') :: Map_set k v m'
  end.

(** [new Map(entries)] *)
Definition Map_new {V} (entries : list (string * V)) : list (string * V) :=
  foldl (λ m e, Map_set e.1 e.2 m) [] entries.

(** [m.values()] *)
Definition Map_values {V} (m : list (string * V)) : list V := m.*2.

Definition buildPluginMap (plugins : list LoadedPlugin) (n : string)
    : list (string * LoadedPlugin) :=
  Map_new (map (λ plugin, (opt_id (options plugin), plugin))
               (filter (λ plugin, name plugin = n) plugins)).

(** ** The route filter *)

(** How the body of a [for] loop ends: with a [return], or by going on. *)
Inductive Exit (A : Type) : Type :=
  | Return (a : A)
  | Next.
Arguments Return {A} a.
Arguments Next {A}.

Fixpoint for_of {P A} (body : P → Result (Exit A)) (ps : list P)
    : Result (Exit A) :=
  match ps with
  | [] => Ok Next
  | p :: ps' =>
      let! r := body p in
      match r with
      | Return a => Ok (Return a)
      | Next => for_of body ps'
      end
  end.

(** [a || b] where both sides may throw and [b] is only run after a false
    [a]. *)
Definition or_else (a b : Result bool) : Result bool :=
  let! x := a in if x then Ok true else b.

Definition basePathOf (plugin : LoadedPlugin) : string :=
  trimLeadingSlash (trimTrailingSlash (routeBasePath (options plugin))).

Definition tagsPathOf (plugin : LoadedPlugin) : string :=
  trimLeadingSlash (trimTrailingSlash (tagsBasePath (options plugin))).

Definition docsBody (route url : string) (docsPlugin : LoadedPlugin)
    : Result (Exit (list Classified)) :=
  let docsBasePath := basePathOf docsPlugin in
  let docsTagsPath := tagsPathOf docsPlugin in
  let! m := urlMatchesPrefix route docsBasePath in
  if m then
    let! x := or_else
          (urlMatchesPrefix route
             (trimLeadingSlash (docsBasePath +:+ "/" +:+ docsTagsPath)))
          (urlMatchesPrefix route
             (trimLeadingSlash (docsBasePath +:+ "/__docusaurus"))) in
    if x then Ok (Return [])
    else Ok (Return [{| route := route; url := url; type := Docs |}])
  else Ok Next.

Definition blogBody (route url : string) (blogPlugin : LoadedPlugin)
    : Result (Exit (list Classified)) :=
  let blogBasePath := basePathOf blogPlugin in
  let blogTagsPath := tagsPathOf blogPlugin in
  let! m := urlMatchesPrefix route blogBasePath in
  if m then
    let! x := or_else (Ok (String.eqb route blogBasePath))
          (or_else
             (urlMatchesPrefix route
                (trimLeadingSlash (blogBasePath +:+ "/" +:+ blogTagsPath)))
             (urlMatchesPrefix route
                (trimLeadingSlash (blogBasePath +:+ "/__docusaurus")))) in
    if x then Ok (Return [])
    else Ok (Return [{| route := route; url := url; type := Blog |}])
  else Ok Next.

Definition pagesBody (route url : string) (pagesPlugin : LoadedPlugin)
    : Result (Exit (list Classified)) :=
  let pagesBasePath := basePathOf pagesPlugin in
  let! m := urlMatchesPrefix route pagesBasePath in
  if m then
    let! x := urlMatchesPrefix route
          (trimLeadingSlash (pagesBasePath +:+ "/__docusaurus")) in
    if x then Ok (Return [])
    else Ok (Return [{| route := route; url := url; type := Page |}])
  else Ok Next.

(** An [if (enabled) { for (...) {...} }] block followed by the rest of the
    callback. *)
Definition block {A} (enabled : bool) (loop : Result (Exit A))
    (rest : Result A) : Result A :=
  if enabled then
    let! r := loop in
    match r with
    | Return a => Ok a
    | Next => rest
    end
  else rest.

(** The callback of [routesPaths.flatMap]. *)
Definition classify (o : MyOptions) (props : Props) (url : string)
    : Result (list Classified) :=
  let docsPlugins := buildPluginMap (plugins props) "docusaurus-plugin-content-docs" in
  let blogPlugins := buildPluginMap (plugins props) "docusaurus-plugin-content-blog" in
  let pagesPlugins := buildPluginMap (plugins props) "docusaurus-plugin-content-pages" in
  let route := substring_from (String.length (baseUrl props)) url in
  if negb (startsWith url (baseUrl props)) then
    Throw (RouteOutsideBaseUrl (baseUrl props) route)
  else if String.eqb route "404.html" then Ok []
  else
    block (indexDocs o) (for_of (docsBody route url) (Map_values docsPlugins))
   (block (indexBlog o) (for_of (blogBody route url) (Map_values blogPlugins))
   (block (indexPages o) (for_of (pagesBody route url) (Map_values pagesPlugins))
   (Ok []))).

(** [routesPaths.flatMap(...)] *)
Definition classifyAll (o : MyOptions) (props : Props) : Result (list Classified) :=
  let! rs := mapM (classify o props) (routesPaths props) in Ok (concat rs).

(** ** Gathering, grouping and indexing the documents *)

(** [sections.map(section => ({ id: nextDocId++, ... }))]: the documents of
    one page and the counter after them. *)
Fixpoint numberSections (mk : nat → PageSection → Doc.t) (nextDocId : nat)
    (sections : list PageSection) : list Doc.t * nat :=
  match sections with
  | [] => ([], nextDocId)
  | section :: rest =>
      let doc := mk nextDocId section in
      let '(docs, next) := numberSections mk (S nextDocId) rest in
      (doc :: docs, next)
  end.

(** The counter [nextDocId] and, for every promise handed to [Promise.all],
    its value once it is fulfilled. *)
Record Gathering : Type := {
  nextDocId : nat;
  fulfilled : list (option (list Doc.t))
}.

(** [documents.reduce((acc, doc) => ..., {})].  The accumulator is the map of
    its own properties; partition tags such as [default] or
    [docs-default-current] never name a member of [Object.prototype]. *)
Definition documentsByDocusaurusTag (documents : list Doc.t)
    : gmap string (list Doc.t) :=
  foldl (λ acc doc,
           <[Doc.docusaurusTag doc :=
               default [] (acc !! Doc.docusaurusTag doc) ++ [doc]]> acc)
        ∅ documents.

(** The text given to the index for the ancestor categories of a document:
    [[...docSidebarParentCategories].reverse().slice(0, n).join(" ")], left
    undefined unless [n > 0] and the list is there. *)
Definition sidebarParentCategories (n : nat)
    (docSidebarParentCategories : option (list string)) : option string :=
  match docSidebarParentCategories with
  | Some categories =>
      if 0 <? n then Some (join " " (take n (rev categories))) else None
  | None => None
  end.

(** [this.use(...)], chosen by the language the constructor settled on. *)
Definition languageUse (language : LanguageOption) : Lunr.Use :=
  if language_is language "en" then Lunr.UseNothing
  else match language with
       | LangList codes => Lunr.UseMultiLanguage codes
       | LangCode code => Lunr.UseLanguage code
       end.

(** The callback given to [lunr(...)] for one partition. *)
Definition buildIndex (p : PluginInstance) (documents : list Doc.t) : Lunr.Index :=
  let o := plugin_options p in
  let n := indexDocSidebarParentCategories o in
  {| Lunr.use := languageUse (language o);
     Lunr.k1 := k1 (lunr o);
     Lunr.b := b (lunr o);
     Lunr.ref := "id";
     Lunr.fields :=
       ["title"; "content"; "tags"]
       ++ (if 0 <? n then ["sidebarParentCategories"] else []);
     Lunr.added :=
       map (λ doc,
              {| Lunr.id := pretty (Doc.id doc);
                 Lunr.title := Doc.sectionTitle doc;
                 Lunr.content := Doc.sectionContent doc;
                 Lunr.tags := Doc.sectionTags doc;
                 Lunr.sidebarParentCategories :=
                   sidebarParentCategories n (Doc.docSidebarParentCategories doc) |})
           documents |}.

(** The entry of the artifact for one document. *)
Definition summarize (o : MyOptions) (doc : Doc.t) : Summary.t :=
  let fullTitle :=
    match Doc.docSidebarParentCategories doc with
    | Some categories =>
        if includeParentCategoriesInPageTitle o && (0 <? length categories)
        then join " > " (categories ++ [Doc.pageTitle doc])
        else Doc.pageTitle doc
    | None => Doc.pageTitle doc
    end in
  {| Summary.id := Doc.id doc;
     Summary.pageTitle := fullTitle;
     Summary.sectionTitle := Doc.sectionTitle doc;
     Summary.sectionRoute := Doc.sectionRoute doc;
     Summary.type := Doc.type doc |}.

Definition buildArtifact (p : PluginInstance) (documents : list Doc.t)
    : SearchArtifact :=
  {| documents := map (summarize (plugin_options p)) documents;
     index := buildIndex p documents |}.

Section PostBuild.

(** The collaborators of the hook: Node's [path.join], the rendered files
    on disk, and the two functions of [./parse]. *)
Variable path_join : list string → string.
Variable readFile : string → option string.
Variable html2text : string → ContentType → string → Parsed.t.
Variable getDocusaurusTag : string → string.

(** The [.map(({ route, url, type }) => ...)] after the filter. *)
Definition toEntry (props : Props) (c : Classified) : Entry.t :=
  let file :=
    match trailingSlash props with
    | Some false =>
        path_join [outDir props;
                   (if String.eqb (route c) "" then "index" else route c)
                   +:+ ".html"]
    | _ => path_join [outDir props; route c; "index.html"]
    end in
  {| Entry.file := file; Entry.url := url c; Entry.type := type c |}.

Definition makeDocument (e : Entry.t) (parsed : Parsed.t)
    (docusaurusTag : string) (id : nat) (section : PageSection) : Doc.t :=
  {| Doc.id := id;
     Doc.pageTitle := Parsed.pageTitle parsed;
     Doc.pageRoute := Entry.url e;
     Doc.sectionRoute := Entry.url e +:+ hash section;
     Doc.sectionTitle := title section;
     Doc.sectionContent := content section;
     Doc.sectionTags := tags section;
     Doc.docusaurusTag := docusaurusTag;
     Doc.docSidebarParentCategories := Parsed.docSidebarParentCategories parsed;
     Doc.type := Entry.type e |}.

(** The documents of the page of entry [e], whose file holds [html],
    numbered from [next], and the counter after them. *)
Definition pageDocuments (e : Entry.t) (html : string) (next : nat)
    : list Doc.t * nat :=
  let parsed := html2text html (Entry.type e) (Entry.url e) in
  let docusaurusTag := getDocusaurusTag html in
  numberSections (makeDocument e parsed docusaurusTag) next
                 (Parsed.sections parsed).

(** The part of the [async] callback after [await readFileAsync(file)],
    run when the read of entry [i] completes. *)
Definition completeRead (data : list Entry.t) (g : Gathering) (i : nat)
    : Result Gathering :=
  match data !! i with
  | None => Ok g
  | Some e =>
      match readFile (Entry.file e) with
      | None => Throw (ReadFailed (Entry.file e))
      | Some html =>
          let numbered := pageDocuments e html (nextDocId g) in
          Ok {| nextDocId := numbered.2;
                fulfilled := <[i := Some numbered.1]> (fulfilled g) |}
      end
  end.

(** The reads complete in the order [completion] lists their indices. *)
Fixpoint completeReads (data : list Entry.t) (completion : list nat)
    (g : Gathering) : Result Gathering :=
  match completion with
  | [] => Ok g
  | i :: rest =>
      let! g' := completeRead data g i in
      completeReads data rest g'
  end.

(** The value of a promise once [Promise.all] resolves.  A read that never
    completes leaves its promise pending; no result exists then. *)
Definition settled (x : Entry.t * option (list Doc.t)) : Result (list Doc.t) :=
  match x.2 with
  | Some numbered => Ok numbered
  | None => Throw (ReadPending (Entry.file x.1))
  end.

(** The value of [await Promise.all(...)], page by page. *)
Definition gatherPages (data : list Entry.t) (completion : list nat)
    : Result (list (list Doc.t)) :=
  let! g := completeReads data completion
              {| nextDocId := 1; fulfilled := replicate (length data) None |} in
  mapM settled (zip data (fulfilled g)).

(** [group] holds the documents of the page of entry [e], numbered from
    some id on. *)
Definition pageOf (e : Entry.t) (group : list Doc.t) : Prop :=
  ∃ html next,
    readFile (Entry.file e) = Some html
    ∧ group = (pageDocuments e html next).1.

(** The file of entry [e] can be read. *)
Definition readable (e : Entry.t) : Prop := is_Some (readFile (Entry.file e)).

(** [(await Promise.all(...)).flat()] *)
Definition gatherDocuments (data : list Entry.t) (completion : list nat)
    : Result (list Doc.t) :=
  let! pages := gatherPages data completion in Ok (concat pages).

(** The name of the file written for a partition. *)
Definition artifactFile (props : Props) (docusaurusTag : string) : string :=
  path_join [outDir props; "search-index-" +:+ docusaurusTag +:+ ".json"].

(** The hook, up to the values it gives to [JSON.stringify], by partition
    tag.  [completion] is the order in which the page reads complete. *)
Definition postBuild (p : PluginInstance) (props : Props)
    (completion : list nat) : Result (gmap string SearchArtifact) :=
  let o := plugin_options p in
  let docsPlugins := buildPluginMap (plugins props) "docusaurus-plugin-content-docs" in
  let blogPlugins := buildPluginMap (plugins props) "docusaurus-plugin-content-blog" in
  let pagesPlugins := buildPluginMap (plugins props) "docusaurus-plugin-content-pages" in
  if indexDocs o && (length docsPlugins =? 0) then Throw NoDocsPlugin
  else if indexBlog o && (length blogPlugins =? 0) then Throw NoBlogPlugin
  else if indexPages o && (length pagesPlugins =? 0) then Throw NoPagesPlugin
  else
    let! classified := classifyAll o props in
    let data := map (toEntry props) classified in
    let! documents := gatherDocuments data completion in
    Ok (buildArtifact p <$> documentsByDocusaurusTag documents).

End PostBuild.

(** ** The route filter of the first version, [src/index.js] *)

Module Legacy.

Record Options : Type := {
  blogBasePath : option string;
  docsBasePath : option string;
  indexPages : option bool;
  indexBlog : option bool;
  indexDocs : option bool
}.

(** The options after the defaults and the checks of the constructor. *)
Record Settings : Type := {
  blogPath : string;
  docsPath : string;
  pages : bool;
  blog_on : bool;
  docs_on : bool
}.

Definition settings (options : Options) : Result Settings :=
  let blogBasePath := default "/blog" (blogBasePath options) in
  let docsBasePath := default "/docs" (docsBasePath options) in
  if negb (startsWith blogBasePath "/") then
    Throw (BasePathWithoutSlash "blogBasePath" blogBasePath)
  else if negb (startsWith docsBasePath "/") then
    Throw (BasePathWithoutSlash "docsBasePath" docsBasePath)
  else
    Ok {| blogPath := slice_from_1 blogBasePath;
          docsPath := slice_from_1 docsBasePath;
          pages := default false (indexPages options);
          blog_on := default true (indexBlog options);
          docs_on := default true (indexDocs options) |}.

(** The callback of [flatMap].  Its error message reads [route] before the
    [const] that declares it, so what is thrown is a [ReferenceError]. *)
Definition classify (s : Settings) (baseUrl url : string)
    : Result (list Classified) :=
  if negb (startsWith url baseUrl) then Throw (ReferenceError "route")
  else
    let route := substring_from (String.length baseUrl) url in
    if String.eqb route "404.html" then Ok []
    else if blog_on s && startsWith route (blogPath s) then
      if String.eqb route (blogPath s)
         || startsWith route (blogPath s +:+ "/tags/")
         || String.eqb route (blogPath s +:+ "/tags")
      then Ok []
      else Ok [{| route := route; url := url; type := Blog |}]
    else if docs_on s && startsWith route (docsPath s) then
      Ok [{| route := route; url := url; type := Docs |}]
    else if pages s then
      Ok [{| route := route; url := url; type := Page |}]
    else Ok [].

End Legacy.

(** ** Notions used to state the properties of the route filter *)

(** The prefixes under which a plugin instance has its tag pages and the
    pages of the debug plugin, as the filter forms them. *)
Definition tagsPrefixOf (plugin : LoadedPlugin) : string :=
  trimLeadingSlash (basePathOf plugin +:+ "/" +:+ tagsPathOf plugin).

Definition debugPrefixOf (plugin : LoadedPlugin) : string :=
  trimLeadingSlash (basePathOf plugin +:+ "/__docusaurus").

(** [route] is tested against [prefix] and not accepted. *)
Definition outside (route prefix : string) : Prop :=
  urlMatchesPrefix route prefix = Ok false.

(** No instance in [ps] has a base path that accepts [route]. *)
Definition no_match (route : string) (ps : list LoadedPlugin) : Prop :=
  Forall (λ q, outside route (basePathOf q)) ps.

(** [p] is the first instance in [ps] whose base path accepts [route]. *)
Definition first_match (route : string) (ps : list LoadedPlugin)
    (p : LoadedPlugin) : Prop :=
  ∃ before after,
    ps = before ++ p :: after
    ∧ no_match route before
    ∧ urlMatchesPrefix route (basePathOf p) = Ok true.

(** The instances registered under a plugin name, in iteration order. *)
Definition registered (props : Props) (n : string) : list LoadedPlugin :=
  Map_values (buildPluginMap (plugins props) n).

(** What holds of the result [l] of the filter on the address [u]: nothing
    is kept, or one route is, under the content type of the first instance
    that accepts it, docs before blog before pages. *)
Definition kept_by_first_match (o : MyOptions) (props : Props) (u : string)
    (l : list Classified) : Prop :=
  let r := substring_from (String.length (baseUrl props)) u in
  let docsPlugins := registered props "docusaurus-plugin-content-docs" in
  let blogPlugins := registered props "docusaurus-plugin-content-blog" in
  let pagesPlugins := registered props "docusaurus-plugin-content-pages" in
  l = [] ∨
  ∃ c, l = [c] ∧ route c = r ∧ url c = u ∧ r ≠ "404.html" ∧
    match type c with
    | Docs =>
        indexDocs o = true
        ∧ ∃ p, first_match r docsPlugins p
               ∧ outside r (tagsPrefixOf p) ∧ outside r (debugPrefixOf p)
    | Blog =>
        indexBlog o = true
        ∧ (indexDocs o = true → no_match r docsPlugins)
        ∧ ∃ p, first_match r blogPlugins p
               ∧ r ≠ basePathOf p
               ∧ outside r (tagsPrefixOf p) ∧ outside r (debugPrefixOf p)
    | Page =>
        indexPages o = true
        ∧ (indexDocs o = true → no_match r docsPlugins)
        ∧ (indexBlog o = true → no_match r blogPlugins)
        ∧ ∃ p, first_match r pagesPlugins p ∧ outside r (debugPrefixOf p)
    end.

(** The nearest [n] ancestors, nearest first, joined by spaces. *)
Definition nearestCategories (n : nat) (categories : list string) : string :=
  join " " (take n (rev categories)).

(** ** A small site, for the examples *)

Module Site.

Definition path_join (parts : list string) : string := join "/" parts.

Definition readFile (file : string) : option string :=
  if String.eqb file "build/docs/intro/index.html" then Some "intro"
  else if String.eqb file "build/docs/setup/index.html" then Some "setup"
  else if String.eqb file "build/blog/hello/index.html" then Some "hello"
  else None.

Definition html2text (html : string) (type : ContentType) (url : string)
    : Parsed.t :=
  if String.eqb html "intro" then
    {| Parsed.pageTitle := "Intro";
       Parsed.sections :=
         [ {| hash := ""; title := "Intro"; content := "Welcome"; tags := [] |};
           {| hash := "#next"; title := "Next"; content := "Steps"; tags := [] |} ];
       Parsed.docSidebarParentCategories := Some ["Guides"] |}
  else
    {| Parsed.pageTitle := html;
       Parsed.sections :=
         [ {| hash := ""; title := html; content := "Text"; tags := ["t"] |} ];
       Parsed.docSidebarParentCategories := None |}.

Definition getDocusaurusTag (html : string) : string :=
  if String.eqb html "hello" then "default" else "docs-default-current".

Definition lunrOptions : LunrOptions :=
  {| tokenizerSeparator := None;
     k1 := (12 # 10)%Q; b := (75 # 100)%Q;
     titleBoost := (5 # 1)%Q; contentBoost := (1 # 1)%Q; tagsBoost := (3 # 1)%Q;
     parentCategoriesBoost := (2 # 1)%Q |}.

(** The default options of the schema. *)
Definition defaults : MyOptions :=
  {| indexDocs := true;
     indexDocSidebarParentCategories := 0;
     includeParentCategoriesInPageTitle := false;
     indexBlog := true;
     indexPages := false;
     language := LangCode "en";
     style_none := false;
     maxSearchResults := 8;
     filterByPathName := false;
     subPath := (-1)%Z;
     lunr := lunrOptions |}.

Definition docsPlugin : LoadedPlugin :=
  {| name := "docusaurus-plugin-content-docs";
     options := {| opt_id := "default"; routeBasePath := "docs";
                   tagsBasePath := "tags" |} |}.

Definition blogPlugin : LoadedPlugin :=
  {| name := "docusaurus-plugin-content-blog";
     options := {| opt_id := "default"; routeBasePath := "blog";
                   tagsBasePath := "tags" |} |}.

Definition props : Props :=
  {| routesPaths := ["/docs/intro"; "/docs/tags"; "/404.html"; "/docs/setup";
                     "/blog"; "/blog/hello"];
     outDir := "build";
     baseUrl := "/";
     trailingSlash := None;
     plugins := [docsPlugin; blogPlugin] |}.

(** The entries for the routes that the filter keeps of [props]. *)
Definition data : list Entry.t :=
  [ {| Entry.file := "build/docs/intro/index.html"; Entry.url := "/docs/intro";
       Entry.type := Docs |};
    {| Entry.file := "build/docs/setup/index.html"; Entry.url := "/docs/setup";
       Entry.type := Docs |};
    {| Entry.file := "build/blog/hello/index.html"; Entry.url := "/blog/hello";
       Entry.type := Blog |} ].

(** Two documents with the partition tags en and fr. *)
Definition docEn : Doc.t :=
  {| Doc.id := 1; Doc.pageTitle := "Intro"; Doc.pageRoute := "/docs/intro";
     Doc.sectionRoute := "/docs/intro"; Doc.sectionTitle := "Intro";
     Doc.sectionContent := "Welcome"; Doc.sectionTags := [];
     Doc.docusaurusTag := "en"; Doc.docSidebarParentCategories := None;
     Doc.type := Docs |}.

Definition docFr : Doc.t :=
  {| Doc.id := 2; Doc.pageTitle := "Intro"; Doc.pageRoute := "/fr/docs/intro";
     Doc.sectionRoute := "/fr/docs/intro"; Doc.sectionTitle := "Intro";
     Doc.sectionContent := "Bienvenue"; Doc.sectionTags := [];
     Doc.docusaurusTag := "fr"; Doc.docSidebarParentCategories := None;
     Doc.type := Docs |}.

Definition classified : list Classified :=
  [ {| route := "docs/intro"; url := "/docs/intro"; type := Docs |};
    {| route := "docs/setup"; url := "/docs/setup"; type := Docs |};
    {| route := "blog/hello"; url := "/blog/hello"; type := Blog |} ].

(** The instance that the constructor returns for the default options. *)
Definition plugin : PluginInstance :=
  match cmfcmfDocusaurusSearchLocal defaults with
  | Ok p => p
  | Throw _ =>
      {| plugin_options := defaults; generated := ""; lunr_separator := None;
         lunr_modules := [] |}
  end.

(** A docs plugin served from the site root, next to the blog. *)
Definition rootDocsPlugin : LoadedPlugin :=
  {| name := "docusaurus-plugin-content-docs";
     options := {| opt_id := "default"; routeBasePath := "/";
                   tagsBasePath := "tags" |} |}.

Definition rootDocsProps : Props :=
  {| routesPaths := ["/intro"; "/blog"; "/blog/tags/news"];
     outDir := "build";
     baseUrl := "/";
     trailingSlash := None;
     plugins := [rootDocsPlugin; blogPlugin] |}.

End Site.

(** A separator that splits at commas, and options that name ja next to
    en. *)
Definition commaSeparator : RegExp :=
  {| regexToString := "/,/";
     regexSplit := split_runs (λ c, (c =? 44)%N) [] false |}.

Definition withSeparator (o : MyOptions) (sep : RegExp) : MyOptions :=
  {| indexDocs := indexDocs o;
     indexDocSidebarParentCategories := indexDocSidebarParentCategories o;
     includeParentCategoriesInPageTitle := includeParentCategoriesInPageTitle o;
     indexBlog := indexBlog o;
     indexPages := indexPages o;
     language := language o;
     style_none := style_none o;
     maxSearchResults := maxSearchResults o;
     filterByPathName := filterByPathName o;
     subPath := subPath o;
     lunr := {| tokenizerSeparator := Some sep;
                k1 := k1 (lunr o); b := b (lunr o);
                titleBoost := titleBoost (lunr o);
                contentBoost := contentBoost (lunr o);
                tagsBoost := tagsBoost (lunr o);
                parentCategoriesBoost := parentCategoriesBoost (lunr o) |} |}.

(** ** The language schema *)

(** [languageSchema]: the codes that [Joi.string().valid(...)] lists. *)
Definition languageSchema : list string :=
  ["ar"; "da"; "de"; "en"; "es"; "fi"; "fr"; "hi"; "hu"; "it"; "ja"; "nl";
   "no"; "pt"; "ro"; "ru"; "sv"; "th"; "tr"; "vi"; "zh"].

(** The [language] entry of [optionsSchema]: one of the codes, or an array
    whose items are all among the codes. *)
Definition language_valid (l : LanguageOption) : bool :=
  match l with
  | LangCode code => bool_decide (code ∈ languageSchema)
  | LangList codes => forallb (λ code, bool_decide (code ∈ languageSchema)) codes
  end.

(** The codes that a language option names. *)
Definition codesOf (l : LanguageOption) : list string :=
  match l with
  | LangCode code => [code]
  | LangList codes => codes
  end.

(** The language is the string ja or the string th. *)
Definition segmenting (l : LanguageOption) : Prop :=
  l = LangCode "ja" ∨ l = LangCode "th".

(** ** The translations of the theme *)

Module Translations.

(** What the plugin reads of an [Intl.Locale]: its [language] and, of its
    [maximize()], the language and the region. *)
Record IntlLocale : Type := {
  language : string;
  maximize : string * string
}.

(** How [getDefaultCodeTranslationMessages] settles: with the messages it
    returns, or rejected by the read or by [JSON.parse]. *)
Inductive Settled (M : Type) : Type :=
  | Returned (messages : M)
  | ReadRejected (path : string)
  | ParseRejected (path : string).
Arguments Returned {M} messages.
Arguments ReadRejected {M} path.
Arguments ParseRejected {M} path.

Section Loader.

(** [Intl.Locale], where the runtime has it, on the well-formed locale tags
    that Docusaurus passes; the directory of the translation files;
    [path.join], [fs.existsSync], [fs.promises.readFile] and [JSON.parse];
    the empty object. *)
Variable Intl_Locale : option (string → IntlLocale).
Variable translationsDir : string.
Variable path_join : list string → string.
Variable existsSync : string → bool.
Variable readFile : string → option string.
Variable Messages : Type.
Variable JSON_parse : string → option Messages.
Variable no_messages : Messages.

Definition codeTranslationLocalesToTry (locale : string) : list string :=
  match Intl_Locale with
  | None => [locale]
  | Some new_Locale =>
      let intlLocale := new_Locale locale in
      if String.eqb (language intlLocale) locale then
        let maximizedLocale := maximize intlLocale in
        [locale; maximizedLocale.1 +:+ "-" +:+ maximizedLocale.2]
      else [locale; language intlLocale]
  end.

Definition translationPath (locale : string) : string :=
  path_join [translationsDir; locale +:+ ".json"].

(** [JSON.parse(await fs.promises.readFile(translationPath, "utf8"))] *)
Definition loadTranslation (path : string) : Settled Messages :=
  match readFile path with
  | None => ReadRejected path
  | Some text =>
      match JSON_parse text with
      | Some messages => Returned messages
      | None => ParseRejected path
      end
  end.

(** The [for (const locale of localesToTry)] loop and the [return {}]
    after it. *)
Fixpoint firstTranslation (localesToTry : list string) : Settled Messages :=
  match localesToTry with
  | [] => Returned no_messages
  | locale :: rest =>
      if existsSync (translationPath locale)
      then loadTranslation (translationPath locale)
      else firstTranslation rest
  end.

Definition getDefaultCodeTranslationMessages (currentLocale : string)
    : Settled Messages :=
  firstTranslation (codeTranslationLocalesToTry currentLocale).

End Loader.

End Translations.

(** ** The hand-written [flatMap] of the first version *)

Module LegacyFlatMap.

(** [array.reduce((acc, element) => acc.concat(mapper(element)), [])], for
    a mapper that returns an array or throws. *)
Fixpoint reduce {A B} (mapper : A → Result (list B)) (acc : list B)
    (array : list A) : Result (list B) :=
  match array with
  | [] => Ok acc
  | element :: rest =>
      let! mapped := mapper element in
      reduce mapper (acc ++ mapped) rest
  end.

Definition flatMap {A B} (array : list A) (mapper : A → Result (list B))
    : Result (list B) :=
  reduce mapper [] array.

(** The routes that [postBuild] of the first version keeps. *)
Definition classifyAll (s : Legacy.Settings) (baseUrl : string)
    (routesPaths : list string) : Result (list Classified) :=
  flatMap routesPaths (Legacy.classify s baseUrl).

End LegacyFlatMap.

(** ** Notions used to state how the hook fails *)



(** ** Notions used to state the properties of the tokenizer *)

(** A code unit that the default separator does not match. *)
Definition is_text (c : codeunit) : Prop := isSeparatorUnit c = false.

#[global] Instance is_text_dec (c : codeunit) : Decision (is_text c).
Proof. unfold is_text. apply _. Defined.

(** ** Notions used to state the properties of the gathered documents *)

(** A document with its id replaced. *)
Definition withId (id : nat) (d : Doc.t) : Doc.t :=
  {| Doc.id := id;
     Doc.pageTitle := Doc.pageTitle d;
     Doc.pageRoute := Doc.pageRoute d;
     Doc.sectionRoute := Doc.sectionRoute d;
     Doc.sectionTitle := Doc.sectionTitle d;
     Doc.sectionContent := Doc.sectionContent d;
     Doc.sectionTags := Doc.sectionTags d;
     Doc.docusaurusTag := Doc.docusaurusTag d;
     Doc.docSidebarParentCategories := Doc.docSidebarParentCategories d;
     Doc.type := Doc.type d |}.

(** The documents of the page of an entry, in section order, all with the
    id 0; none when the file cannot be read. *)
Definition unnumberedDocuments (readFile : string → option string)
    (html2text : string → ContentType → string → Parsed.t)
    (getDocusaurusTag : string → string) (e : Entry.t) : list Doc.t :=
  match readFile (Entry.file e) with
  | Some html =>
      let parsed := html2text html (Entry.type e) (Entry.url e) in
      map (makeDocument e parsed (getDocusaurusTag html) 0)
          (Parsed.sections parsed)
  | None => []
  end.

(** The plugins registered under a name, before the [Map] is built. *)
Definition named (props : Props) (n : string) : list LoadedPlugin :=
  filter (λ plugin, name plugin = n) (plugins props).


(** ** More of the small site *)

Module Site2.

(** A runtime whose [Intl.Locale] knows the language in front of the first
    hyphen and maximizes pt to pt-BR. *)
Definition new_Locale (locale : string) : Translations.IntlLocale :=
  if String.eqb locale "pt-BR" then
    {| Translations.language := "pt"; Translations.maximize := ("pt", "BR") |}
  else
    {| Translations.language := locale;
       Translations.maximize := (locale, if String.eqb locale "pt" then "BR" else "US") |}.

Definition existsSync (path : string) : bool :=
  String.eqb path "codeTranslations/pt-BR.json"
  || String.eqb path "codeTranslations/de.json".

Definition readFile (path : string) : option string :=
  if existsSync path then Some path else None.

Definition JSON_parse (text : string) : option (list (string * string)) :=
  Some [("cmfcmf/d-s-l.searchBar.placeholder", text)].

(** A docs instance whose tag pages sit directly under its base path. *)
Definition untaggedDocsPlugin : LoadedPlugin :=
  {| name := "docusaurus-plugin-content-docs";
     options := {| opt_id := "default"; routeBasePath := "/docs/";
                   tagsBasePath := "/" |} |}.

(** Entries of which the second has no file. *)
Definition brokenData : list Entry.t :=
  [ {| Entry.file := "build/docs/intro/index.html"; Entry.url := "/docs/intro";
       Entry.type := Docs |};
    {| Entry.file := "build/docs/missing/index.html"; Entry.url := "/docs/missing";
       Entry.type := Docs |} ].

(** A document under two sidebar categories. *)
Definition nestedDoc : Doc.t :=
  {| Doc.id := 7; Doc.pageTitle := "Install"; Doc.pageRoute := "/docs/install";
     Doc.sectionRoute := "/docs/install"; Doc.sectionTitle := "Install";
     Doc.sectionContent := "Run it"; Doc.sectionTags := [];
     Doc.docusaurusTag := "default";
     Doc.docSidebarParentCategories := Some ["Guides"; "Setup"];
     Doc.type := Docs |}.

End Site2.

(** * Properties *)

(** ** Strings *)

Lemma startsWith_spec (s p : string) :
  startsWith s p = true ↔ ∃ rest, s = p +:+ rest.
Proof.
  revert s. induction p as [|c p IH]; intros s; simpl.
  - split; [intros _; by exists s | done].
  - destruct s as [|d s]; simpl.
    + split; [done | intros [rest Hrest]; discriminate Hrest].
    + destruct (Ascii.eqb_spec d c) as [->|Hne].
      * rewrite IH. split; intros [rest Hrest]; exists rest.
        -- by rewrite Hrest.
        -- by injection Hrest.
      * split; [done | intros [rest Hrest]; injection Hrest; congruence].
Qed.

Lemma append_assoc (s t u : string) : (s +:+ t) +:+ u = s +:+ t +:+ u.
Proof.
  induction s as [|c s IH]; [reflexivity|].
  change (String c ((s +:+ t) +:+ u) = String c (s +:+ t +:+ u)).
  by rewrite IH.
Qed.

Lemma startsWith_false (s p : string) :
  startsWith s p = false ↔ ¬ ∃ rest, s = p +:+ rest.
Proof.
  rewrite <- startsWith_spec. destruct (startsWith s p); naive_solver.
Qed.

Lemma string_eqb_true (s t : string) : String.eqb s t = true ↔ s = t.
Proof. apply String.eqb_eq. Qed.

(** ** Exact-segment prefixes (C3) *)

(** C3, as the source has it: [urlMatchesPrefix] accepts a route [r] for a
    prefix [p] exactly when [p] neither starts nor ends with a slash and [p]
    is empty, or [r] is [p], or [r] starts with [p] followed by a slash.  The
    route docsx is not accepted for the prefix docs. *)
Theorem urlMatchesPrefix_exact_segment :
  (∀ r p : string,
     urlMatchesPrefix r p = Ok true ↔
       startsWith p "/" = false ∧ endsWith p "/" = false ∧
       (p = "" ∨ r = p ∨ ∃ rest, r = p +:+ "/" +:+ rest))
  ∧ urlMatchesPrefix "docsx" "docs" = Ok false.
Proof.
  split; [|reflexivity].
  intros r p. unfold urlMatchesPrefix.
  destruct (startsWith p "/") eqn:Hs.
  { split; [discriminate | by intros [? _]]. }
  destruct (endsWith p "/") eqn:He.
  { split; [discriminate | by intros (_ & ? & _)]. }
  split.
  - intros [= H]. repeat split.
    apply orb_true_iff in H as [H|H]; [apply orb_true_iff in H as [H|H]|].
    + left. by apply string_eqb_true.
    + right; left. by apply string_eqb_true.
    + right; right. apply startsWith_spec in H as [rest ->].
      exists rest. apply append_assoc.
  - intros (_ & _ & [Hp|[Hr|[rest Hrest]]]); f_equal.
    + apply string_eqb_true in Hp. by rewrite Hp.
    + apply string_eqb_true in Hr. rewrite Hr. by rewrite orb_true_r.
    + assert (startsWith r (p +:+ "/") = true) as ->.
      { apply startsWith_spec. exists rest. by rewrite append_assoc. }
      by rewrite orb_true_r.
Qed.

(** C3 as stated fails: the empty prefix, which is what a base path of [/]
    becomes, accepts a route that neither is empty nor starts with a slash. *)
Lemma urlMatchesPrefix_empty_prefix :
  urlMatchesPrefix "blog/post" "" = Ok true
  ∧ "blog/post" ≠ ""
  ∧ ¬ (∃ rest, "blog/post" = "" +:+ "/" +:+ rest).
Proof.
  split; [reflexivity|]. split; [done|]. by intros [rest ?].
Qed.

(** The filter of the first version tests a plain prefix: with the default
    docs path, the route docsx is kept as a docs page. *)
Example legacy_classify_docsx :
  (let! s := Legacy.settings
               {| Legacy.blogBasePath := None; Legacy.docsBasePath := None;
                  Legacy.indexPages := None; Legacy.indexBlog := None;
                  Legacy.indexDocs := None |} in
   Legacy.classify s "/" "/docsx")
  = Ok [{| route := "docsx"; url := "/docsx"; type := Docs |}].
Proof. reflexivity. Qed.

(** ** The route filter (C4) *)

Lemma bind_Ok {A B} (r : Result A) (k : A → Result B) (y : B) :
  bind r k = Ok y → ∃ x, r = Ok x ∧ k x = Ok y.
Proof. destruct r as [x|e]; simpl; [eauto | discriminate]. Qed.

Lemma for_of_Next {P A} (body : P → Result (Exit A)) (ps : list P) :
  for_of body ps = Ok Next → Forall (λ q, body q = Ok Next) ps.
Proof.
  induction ps as [|q ps IH]; simpl; intros H; [constructor|].
  apply bind_Ok in H as (x & Hq & H). destruct x as [a|]; [discriminate|].
  constructor; auto.
Qed.

Lemma for_of_Return {P A} (body : P → Result (Exit A)) (ps : list P) (a : A) :
  for_of body ps = Ok (Return a) →
  ∃ before p after,
    ps = before ++ p :: after
    ∧ Forall (λ q, body q = Ok Next) before
    ∧ body p = Ok (Return a).
Proof.
  induction ps as [|q ps IH]; simpl; intros H; [discriminate|].
  apply bind_Ok in H as (x & Hq & H). destruct x as [a'|].
  - injection H as ->. exists [], q, ps. repeat split; [constructor | done].
  - destruct (IH H) as (before & p & after & -> & Hbefore & Hp).
    exists (q :: before), p, after. repeat split; [by constructor | done].
Qed.

Lemma block_Ok {A} (enabled : bool) (loop : Result (Exit A)) (rest : Result A)
    (a : A) :
  block enabled loop rest = Ok a →
  (enabled = true ∧ loop = Ok (Return a))
  ∨ ((enabled = true → loop = Ok Next) ∧ rest = Ok a).
Proof.
  unfold block. destruct enabled; [|intros H; right; by split].
  intros H. apply bind_Ok in H as (x & Hloop & H). destruct x as [a'|].
  - injection H as ->. by left.
  - right. by split.
Qed.

Lemma or_else_Ok (a b : Result bool) (x : bool) :
  or_else a b = Ok x →
  (a = Ok true ∧ x = true) ∨ (a = Ok false ∧ b = Ok x).
Proof.
  unfold or_else. intros H. apply bind_Ok in H as (y & Ha & H).
  destruct y; [left | right]; split; congruence.
Qed.

Lemma docsBody_Next (r u : string) (p : LoadedPlugin) :
  docsBody r u p = Ok Next → outside r (basePathOf p).
Proof.
  unfold docsBody, outside. intros H. apply bind_Ok in H as (m & Hm & H).
  destruct m; [|done]. apply bind_Ok in H as (x & _ & H). by destruct x.
Qed.

Lemma docsBody_Return (r u : string) (p : LoadedPlugin) (l : list Classified) :
  docsBody r u p = Ok (Return l) →
  urlMatchesPrefix r (basePathOf p) = Ok true
  ∧ (l = [] ∨ l = [{| route := r; url := u; type := Docs |}]
              ∧ outside r (tagsPrefixOf p) ∧ outside r (debugPrefixOf p)).
Proof.
  unfold docsBody. intros H. apply bind_Ok in H as (m & Hm & H).
  destruct m; [|discriminate]. split; [done|].
  apply bind_Ok in H as (x & Hx & H). destruct x; injection H as <-; [by left|].
  right. apply or_else_Ok in Hx as [[_ ?]|[? ?]]; [discriminate|done].
Qed.

Lemma blogBody_Next (r u : string) (p : LoadedPlugin) :
  blogBody r u p = Ok Next → outside r (basePathOf p).
Proof.
  unfold blogBody, outside. intros H. apply bind_Ok in H as (m & Hm & H).
  destruct m; [|done]. apply bind_Ok in H as (x & _ & H). by destruct x.
Qed.

Lemma blogBody_Return (r u : string) (p : LoadedPlugin) (l : list Classified) :
  blogBody r u p = Ok (Return l) →
  urlMatchesPrefix r (basePathOf p) = Ok true
  ∧ (l = [] ∨ l = [{| route := r; url := u; type := Blog |}]
              ∧ r ≠ basePathOf p
              ∧ outside r (tagsPrefixOf p) ∧ outside r (debugPrefixOf p)).
Proof.
  unfold blogBody. intros H. apply bind_Ok in H as (m & Hm & H).
  destruct m; [|discriminate]. split; [done|].
  apply bind_Ok in H as (x & Hx & H). destruct x; injection H as <-; [by left|].
  right. apply or_else_Ok in Hx as [[_ ?]|[Heq Hx]]; [discriminate|].
  apply or_else_Ok in Hx as [[_ ?]|[? ?]]; [discriminate|].
  repeat split; try done.
  intros ->. injection Heq as Heq. by rewrite String.eqb_refl in Heq.
Qed.

Lemma pagesBody_Next (r u : string) (p : LoadedPlugin) :
  pagesBody r u p = Ok Next → outside r (basePathOf p).
Proof.
  unfold pagesBody, outside. intros H. apply bind_Ok in H as (m & Hm & H).
  destruct m; [|done]. apply bind_Ok in H as (x & _ & H). by destruct x.
Qed.

Lemma pagesBody_Return (r u : string) (p : LoadedPlugin) (l : list Classified) :
  pagesBody r u p = Ok (Return l) →
  urlMatchesPrefix r (basePathOf p) = Ok true
  ∧ (l = [] ∨ l = [{| route := r; url := u; type := Page |}]
              ∧ outside r (debugPrefixOf p)).
Proof.
  unfold pagesBody. intros H. apply bind_Ok in H as (m & Hm & H).
  destruct m; [|discriminate]. split; [done|].
  apply bind_Ok in H as (x & Hx & H). destruct x; injection H as <-; [by left|].
  by right.
Qed.

(** The loop over the instances of one content type, when it returns. *)
Lemma loop_Return (body : LoadedPlugin → Result (Exit (list Classified)))
    (r : string) (ps : list LoadedPlugin) (l : list Classified) :
  (∀ q, body q = Ok Next → outside r (basePathOf q)) →
  for_of body ps = Ok (Return l) →
  ∃ p, (∃ before after, ps = before ++ p :: after ∧ no_match r before)
       ∧ body p = Ok (Return l).
Proof.
  intros Hnext H. apply for_of_Return in H as (before & p & after & -> & Hb & Hp).
  exists p. split; [|done]. exists before, after. split; [done|].
  unfold no_match. eapply Forall_impl; [exact Hb | auto].
Qed.

Lemma loop_Next (body : LoadedPlugin → Result (Exit (list Classified)))
    (r : string) (ps : list LoadedPlugin) :
  (∀ q, body q = Ok Next → outside r (basePathOf q)) →
  for_of body ps = Ok Next → no_match r ps.
Proof.
  intros Hnext H. apply for_of_Next in H.
  unfold no_match. eapply Forall_impl; [exact H | auto].
Qed.

(** C4, as the source has it: the filter keeps a route at most once, under
    one content type.  Docs instances are tried first, then blog instances,
    then pages instances, each kind only when enabled, and the first instance
    whose base path accepts the route decides.  A kept route is not the error
    page and lies outside the tag prefix and the debug prefix of the instance
    that decided; when that instance is a blog, the route is not its base
    path either. *)
Theorem classify_first_match (o : MyOptions) (props : Props) (u : string)
    (l : list Classified) :
  classify o props u = Ok l → kept_by_first_match o props u l.
Proof.
  intros H. unfold kept_by_first_match, classify in *.
  fold (registered props "docusaurus-plugin-content-docs") in H.
  fold (registered props "docusaurus-plugin-content-blog") in H.
  fold (registered props "docusaurus-plugin-content-pages") in H.
  set (r := substring_from (String.length (baseUrl props)) u) in *.
  set (docsPlugins := registered props "docusaurus-plugin-content-docs") in *.
  set (blogPlugins := registered props "docusaurus-plugin-content-blog") in *.
  set (pagesPlugins := registered props "docusaurus-plugin-content-pages") in *.
  destruct (negb (startsWith u (baseUrl props))); [discriminate|].
  destruct (String.eqb r "404.html") eqn:H404; [injection H as <-; by left|].
  assert (r ≠ "404.html") as Hne.
  { intros Heq. apply String.eqb_eq in Heq. congruence. }
  apply block_Ok in H as [[Hd H]|[Hd H]].
  { apply (loop_Return _ r) in H as (p & (before & after & Hps & Hno) & Hp);
      [|apply docsBody_Next].
    apply docsBody_Return in Hp as [Hm [->|(-> & Ht & Hg)]]; [by left|].
    right. eexists. split; [done|]. simpl. repeat split; try done.
    exists p. repeat split; try done. by exists before, after. }
  assert (indexDocs o = true → no_match r docsPlugins) as Hdocs.
  { intros Hon. by apply (loop_Next (docsBody r u)), Hd; [apply docsBody_Next|]. }
  apply block_Ok in H as [[Hb H]|[Hb H]].
  { apply (loop_Return _ r) in H as (p & (before & after & Hps & Hno) & Hp);
      [|apply blogBody_Next].
    apply blogBody_Return in Hp as [Hm [->|(-> & Hbase & Ht & Hg)]]; [by left|].
    right. eexists. split; [done|]. simpl. repeat split; try done.
    exists p. repeat split; try done. by exists before, after. }
  assert (indexBlog o = true → no_match r blogPlugins) as Hblog.
  { intros Hon. by apply (loop_Next (blogBody r u)), Hb; [apply blogBody_Next|]. }
  apply block_Ok in H as [[Hp H]|[Hp H]].
  { apply (loop_Return _ r) in H as (p & (before & after & Hps & Hno) & Hq);
      [|apply pagesBody_Next].
    apply pagesBody_Return in Hq as [Hm [->|(-> & Hg)]]; [by left|].
    right. eexists. split; [done|]. simpl. repeat split; try done.
    exists p. repeat split; try done. by exists before, after. }
  injection H as <-. by left.
Qed.

Lemma classify_first_match_witness :
  classify Site.defaults Site.props "/docs/intro"
    = Ok [{| route := "docs/intro"; url := "/docs/intro"; type := Docs |}]
  ∧ kept_by_first_match Site.defaults Site.props "/docs/intro"
      [{| route := "docs/intro"; url := "/docs/intro"; type := Docs |}].
Proof.
  split; [reflexivity|].
  apply (classify_first_match Site.defaults Site.props "/docs/intro").
  reflexivity.
Defined.

(** C4 as stated fails: with a docs instance served from the site root next
    to a blog under blog, the docs instance accepts every route first.  The
    blog listing page and a blog tag page are kept, as docs pages. *)
Lemma classify_keeps_blog_listing :
  Site.blogPlugin ∈ registered Site.rootDocsProps "docusaurus-plugin-content-blog"
  ∧ indexBlog Site.defaults = true
  ∧ basePathOf Site.blogPlugin = "blog"
  ∧ classify Site.defaults Site.rootDocsProps "/blog"
      = Ok [{| route := "blog"; url := "/blog"; type := Docs |}]
  ∧ urlMatchesPrefix "blog/tags/news" (tagsPrefixOf Site.blogPlugin) = Ok true
  ∧ classify Site.defaults Site.rootDocsProps "/blog/tags/news"
      = Ok [{| route := "blog/tags/news"; url := "/blog/tags/news"; type := Docs |}].
Proof.
  split; [|by repeat split].
  unfold registered. vm_compute. apply list_elem_of_here.
Qed.

(** ** Grouping by partition tag (C5) *)

Lemma documentsByDocusaurusTag_snoc (documents : list Doc.t) (doc : Doc.t) :
  documentsByDocusaurusTag (documents ++ [doc]) =
    <[Doc.docusaurusTag doc :=
        default [] (documentsByDocusaurusTag documents !! Doc.docusaurusTag doc)
        ++ [doc]]> (documentsByDocusaurusTag documents).
Proof. unfold documentsByDocusaurusTag. by rewrite foldl_snoc. Qed.

Lemma documentsByDocusaurusTag_lookup (documents : list Doc.t) (tag : string) :
  documentsByDocusaurusTag documents !! tag =
    match filter (λ d, Doc.docusaurusTag d = tag) documents with
    | [] => None
    | group => Some group
    end.
Proof.
  induction documents as [|doc documents IH] using rev_ind; [done|].
  rewrite documentsByDocusaurusTag_snoc, filter_app.
  destruct (decide (Doc.docusaurusTag doc = tag)) as [<-|Hne].
  - rewrite lookup_insert_eq, IH, filter_cons_True by done. rewrite filter_nil.
    by destruct (filter _ documents).
  - rewrite lookup_insert_ne, IH, filter_cons_False by done.
    by rewrite filter_nil, app_nil_r.
Qed.




(** ** The ancestor categories given to the index (C7) *)

(** C7: with an indexing depth [n > 0] the index has the field for ancestor
    categories, and a document is added with a text for it exactly when it
    has a list of ancestor categories; the text names the nearest [n]
    ancestors, nearest first, joined by spaces.  For Guides, Setup, Install
    and depth 2 it is Install Setup. *)
Theorem sidebarParentCategories_nearest (n : nat) :
  0 < n →
  (∀ categories : option (list string),
     sidebarParentCategories n categories = nearestCategories n <$> categories
     ∧ (is_Some (sidebarParentCategories n categories) ↔ is_Some categories))
  ∧ (∀ (p : PluginInstance) (documents : list Doc.t),
       indexDocSidebarParentCategories (plugin_options p) = n →
       "sidebarParentCategories" ∈ Lunr.fields (buildIndex p documents)
       ∧ map Lunr.sidebarParentCategories (Lunr.added (buildIndex p documents))
         = map (λ doc, nearestCategories n <$> Doc.docSidebarParentCategories doc)
               documents)
  ∧ sidebarParentCategories 2 (Some ["Guides"; "Setup"; "Install"])
    = Some "Install Setup".
Proof.
  intros Hn.
  assert (∀ categories : option (list string),
            sidebarParentCategories n categories = nearestCategories n <$> categories)
    as Hfield.
  { intros [categories|]; [|done]. unfold sidebarParentCategories.
    by destruct (Nat.ltb_spec 0 n); [|lia]. }
  split; [|split; [|reflexivity]].
  - intros categories. split; [apply Hfield|].
    rewrite Hfield. apply fmap_is_Some.
  - intros p documents Hp. unfold buildIndex. simpl. rewrite Hp. split.
    + destruct (Nat.ltb_spec 0 n); [|lia]. set_solver.
    + rewrite map_map. apply map_ext. intros doc. apply Hfield.
Qed.

Lemma sidebarParentCategories_nearest_witness :
  0 < 2
  ∧ sidebarParentCategories 2 (Some ["Guides"; "Setup"; "Install"])
    = nearestCategories 2 <$> Some ["Guides"; "Setup"; "Install"]
  ∧ nearestCategories 2 ["Guides"; "Setup"; "Install"] = "Install Setup".
Proof.
  split; [lia|]. split; [|reflexivity].
  apply (sidebarParentCategories_nearest 2). lia.
Defined.

(** ** The tokenizer generated for zh (C8) *)

Lemma isWhiteSpace_toLowerCaseUnit (c : codeunit) :
  isWhiteSpace (toLowerCaseUnit c) = isWhiteSpace c.
Proof.
  assert (∀ x : N, (isWhiteSpace x = false) ↔
            (¬ (9 ≤ x ≤ 13) ∧ x ≠ 32 ∧ x ≠ 160 ∧ x ≠ 5760 ∧ ¬ (8192 ≤ x ≤ 8202)
             ∧ x ≠ 8232 ∧ x ≠ 8233 ∧ x ≠ 8239 ∧ x ≠ 8287 ∧ x ≠ 12288
             ∧ x ≠ 65279)%N) as Hws.
  { intros x. unfold isWhiteSpace.
    rewrite !orb_false_iff, !andb_false_iff, !N.leb_gt, !N.eqb_neq. lia. }
  unfold toLowerCaseUnit.
  repeat match goal with
         | |- context [if ?cond then _ else _] => destruct cond eqn:?
         end; try reflexivity;
    repeat match goal with
           | H : _ && _ = true |- _ => apply andb_true_iff in H as [? ?]
           | H : (_ <=? _)%N = true |- _ => apply N.leb_le in H
           end;
    (transitivity false; [|symmetry]; apply Hws; lia).
Qed.

Lemma trimStart_toLowerCase (s : jsstring) :
  trimStart (toLowerCase s) = toLowerCase (trimStart s).
Proof.
  induction s as [|c s IH]; [done|]. simpl.
  rewrite isWhiteSpace_toLowerCaseUnit. by destruct (isWhiteSpace c).
Qed.

Lemma trim_toLowerCase (s : jsstring) :
  trim (toLowerCase s) = toLowerCase (trim s).
Proof.
  assert (∀ x, rev (toLowerCase x) = toLowerCase (rev x)) as Hrev.
  { intros x. unfold toLowerCase. by rewrite map_rev. }
  unfold trim, trimEnd.
  by rewrite trimStart_toLowerCase, Hrev, trimStart_toLowerCase, Hrev.
Qed.



(** ** The separator and the segmenting languages (C9) *)

(** C9, as the source has it: when a separator is configured and the
    language is ja or th, given as a string or as an array of that one code,
    the constructor throws; no plugin instance exists whose hooks could
    index anything. *)
Theorem separator_rejected_for_ja_th (o : MyOptions) (sep : RegExp) (c : string) :
  tokenizerSeparator (lunr o) = Some sep →
  c = "ja" ∨ c = "th" →
  language o = LangCode c ∨ language o = LangList [c] →
  cmfcmfDocusaurusSearchLocal o = Throw SeparatorNotSupported.
Proof.
  intros Hsep Hc Hl. unfold cmfcmfDocusaurusSearchLocal.
  assert (normalizeLanguage (language o) = LangCode c) as ->.
  { by destruct Hl as [-> | ->]. }
  rewrite Hsep. by destruct Hc as [-> | ->].
Qed.

Lemma separator_rejected_for_ja_th_witness :
  cmfcmfDocusaurusSearchLocal
    (with_language (LangList ["ja"]) (withSeparator Site.defaults commaSeparator))
  = Throw SeparatorNotSupported.
Proof.
  apply (separator_rejected_for_ja_th _ commaSeparator "ja");
    [reflexivity | by left | by right].
Defined.

(** C9 as stated fails: with the languages given as the array of en and ja
    the language is neither the string ja nor the string th, and the
    constructor accepts the separator. *)
Lemma separator_accepted_for_en_ja :
  is_ok (cmfcmfDocusaurusSearchLocal
           (with_language (LangList ["en"; "ja"])
                          (withSeparator Site.defaults commaSeparator)))
  = true.
Proof. reflexivity. Qed.

(** ** A language given as an array of one code (C10) *)

(** C10: options whose language is the array of the one code [c] and options
    whose language is the string [c] give the same result of the
    constructor: the same error, or the same instance with the same
    generated text.  The index of that instance is built for the language
    [c] alone, never through the multi-language extension. *)
Theorem single_code_array_is_scalar (o : MyOptions) (c : string) :
  cmfcmfDocusaurusSearchLocal (with_language (LangList [c]) o)
    = cmfcmfDocusaurusSearchLocal (with_language (LangCode c) o)
  ∧ ∀ p, cmfcmfDocusaurusSearchLocal (with_language (LangList [c]) o) = Ok p →
      language (plugin_options p) = LangCode c
      ∧ ∀ documents,
          Lunr.use (buildIndex p documents) = languageUse (LangCode c)
          ∧ ∀ codes, Lunr.use (buildIndex p documents) ≠ Lunr.UseMultiLanguage codes.
Proof.
  split; [reflexivity|]. intros p Hp.
  unfold cmfcmfDocusaurusSearchLocal in Hp.
  apply bind_Ok in Hp as (loaded & _ & Hp). apply bind_Ok in Hp as (text & _ & Hp).
  injection Hp as <-. split; [reflexivity|]. intros documents. simpl.
  split; [reflexivity|]. intros codes. unfold languageUse.
  by destruct (language_is (LangCode c) "en").
Qed.

Lemma single_code_array_is_scalar_witness :
  ∃ p, cmfcmfDocusaurusSearchLocal (with_language (LangList ["de"]) Site.defaults) = Ok p
       ∧ language (plugin_options p) = LangCode "de".
Proof.
  eexists. split; [reflexivity|].
  eapply (proj2 (single_code_array_is_scalar Site.defaults "de")). reflexivity.
Defined.

(** ** Numbering the documents (C1, C6) *)

Lemma numberSections_spec (mk : nat → PageSection → Doc.t) (next : nat)
    (sections : list PageSection) :
  (∀ k s, Doc.id (mk k s) = k) →
  map Doc.id (numberSections mk next sections).1 = seq next (length sections)
  ∧ (numberSections mk next sections).2 = next + length sections.
Proof.
  intros Hid. revert next.
  induction sections as [|s sections IH]; intros next; simpl.
  - split; [done | lia].
  - destruct (IH (S next)) as [Hids Hnext].
    destruct (numberSections mk (S next) sections) as [numbered next'].
    simpl in *. rewrite Hid, Hids, Hnext. split; [done | lia].
Qed.

Lemma omap_lookup_seq {A} (l : list A) :
  omap (λ i, l !! i) (seq 0 (length l)) = l.
Proof.
  induction l as [|x l IH]; [done|]. simpl.
  rewrite <- fmap_S_seq. f_equal.
  rewrite <- IH at 2. clear IH.
  generalize (seq 0 (length l)). intros js.
  induction js as [|j js IH]; [done|]. simpl.
  destruct (l !! j); [f_equal|]; exact IH.
Qed.

Lemma StronglySorted_seq (k n : nat) : StronglySorted lt (seq k n).
Proof.
  revert k. induction n as [|n IH]; intros k; simpl; constructor; [apply IH|].
  apply Forall_forall. intros j Hj. apply elem_of_seq in Hj. lia.
Qed.

Lemma StronglySorted_map_filter {A} (f : A → nat) (P : A → Prop)
    `{∀ x, Decision (P x)} (l : list A) :
  StronglySorted lt (map f l) → StronglySorted lt (map f (filter P l)).
Proof.
  induction l as [|x l IH]; simpl; intros Hsorted; [constructor|].
  apply StronglySorted_inv in Hsorted as [Hl Hx].
  destruct (decide (P x)).
  - rewrite filter_cons_True by done. simpl. constructor; [by apply IH|].
    rewrite Forall_forall in Hx. apply Forall_forall. intros j Hj.
    apply Hx. apply list_elem_of_In, in_map_iff in Hj as (y & <- & Hy).
    apply list_elem_of_In, in_map. apply list_elem_of_In.
    apply list_elem_of_In, list_elem_of_filter in Hy as [_ Hy]. done.
  - rewrite filter_cons_False by done. by apply IH.
Qed.

Lemma NoDup_map_filter {A} (f : A → nat) (P : A → Prop)
    `{∀ x, Decision (P x)} (l : list A) :
  NoDup (map f l) → NoDup (map f (filter P l)).
Proof.
  intros Hnodup. eapply sublist_NoDup; [exact Hnodup|].
  change (sublist (f <$> filter P l) (f <$> l)).
  apply fmap_sublist, sublist_filter.
Qed.

Lemma NoDup_map_eq {A B} (f : A → B) (l : list A) (x y : A) :
  NoDup (map f l) → x ∈ l → y ∈ l → f x = f y → x = y.
Proof.
  induction l as [|z l IH]; simpl; intros Hnodup Hx Hy Hxy.
  { by apply elem_of_nil in Hx. }
  apply NoDup_cons in Hnodup as [Hz Hnodup].
  apply elem_of_cons in Hx as [->|Hx]; apply elem_of_cons in Hy as [->|Hy];
    try done.
  - exfalso. apply Hz. rewrite Hxy. apply list_elem_of_In, in_map.
    by apply list_elem_of_In.
  - exfalso. apply Hz. rewrite <- Hxy. apply list_elem_of_In, in_map.
    by apply list_elem_of_In.
  - by apply IH.
Qed.

Section Gathering.

Variable path_join : list string → string.
Variable readFile : string → option string.
Variable html2text : string → ContentType → string → Parsed.t.
Variable getDocusaurusTag : string → string.

Local Abbreviation page_documents := (pageDocuments html2text getDocusaurusTag).
Local Abbreviation complete_reads :=
  (completeReads readFile html2text getDocusaurusTag).
Local Abbreviation gather_pages :=
  (gatherPages readFile html2text getDocusaurusTag).
Local Abbreviation gather_documents :=
  (gatherDocuments readFile html2text getDocusaurusTag).
Local Abbreviation page_of := (pageOf readFile html2text getDocusaurusTag).

Lemma pageDocuments_ids (e : Entry.t) (html : string) (next : nat) :
  map Doc.id (page_documents e html next).1
    = seq next (length (page_documents e html next).1)
  ∧ (page_documents e html next).2
    = next + length (page_documents e html next).1.
Proof.
  unfold pageDocuments.
  edestruct (numberSections_spec
               (makeDocument e (html2text html (Entry.type e) (Entry.url e))
                             (getDocusaurusTag html)) next) as [Hids Hnext];
    [done|].
  rewrite <- (length_map Doc.id), Hids, length_seq. by rewrite Hnext.
Qed.

(** The reads complete one after another: every page read is fulfilled
    with documents whose ids go on where the page before it stopped. *)
Lemma completeReads_spec (data : list Entry.t) (completion : list nat)
    (g : Gathering) :
  NoDup completion →
  (∀ i, i ∈ completion →
        ∃ e, data !! i = Some e ∧ is_Some (readFile (Entry.file e))) →
  length (fulfilled g) = length data →
  ∃ g' groups,
    complete_reads data completion g = Ok g'
    ∧ length (fulfilled g') = length data
    ∧ (∀ i, i ∉ completion → fulfilled g' !! i = fulfilled g !! i)
    ∧ Forall2 (λ i group,
                 fulfilled g' !! i = Some (Some group)
                 ∧ ∃ e, data !! i = Some e ∧ page_of e group)
              completion groups
    ∧ map Doc.id (concat groups) = seq (nextDocId g) (length (concat groups))
    ∧ nextDocId g' = nextDocId g + length (concat groups).
Proof.
  revert g. induction completion as [|i rest IH]; intros g Hnodup Hread Hlen.
  { exists g, []. simpl. repeat split; try done; try lia. }
  apply NoDup_cons in Hnodup as [Hi Hnodup].
  destruct (Hread i) as (e & He & html & Hhtml); [apply list_elem_of_here|].
  simpl. unfold completeRead at 1. rewrite He, Hhtml. simpl.
  set (g1 := {| nextDocId := (page_documents e html (nextDocId g)).2;
                fulfilled := <[i:=Some (page_documents e html (nextDocId g)).1]>
                               (fulfilled g) |}).
  destruct (IH g1) as (g' & groups & Hrun & Hlen' & Hkeep & Hgroups & Hids & Hnext);
    [done | by intros j Hj; apply Hread; right
          | by simpl; rewrite length_insert |].
  destruct (pageDocuments_ids e html (nextDocId g)) as [Hpage Hcount].
  exists g', ((page_documents e html (nextDocId g)).1 :: groups).
  split; [done|]. split; [done|]. split; [|split; [|split]].
  - intros j Hj. apply not_elem_of_cons in Hj as [Hji Hj].
    rewrite Hkeep by done. simpl. by rewrite list_lookup_insert_ne.
  - constructor; [|done]. split.
    + rewrite Hkeep by done. simpl. apply list_lookup_insert_eq.
      rewrite Hlen. by eapply lookup_lt_Some.
    + exists e. split; [done|]. by exists html, (nextDocId g).
  - simpl. rewrite map_app, length_app, Hpage, Hids. simpl.
    rewrite Hcount. by rewrite seq_app.
  - rewrite Hnext. simpl. rewrite Hcount, length_app. lia.
Qed.

Lemma all_fulfilled (slots : list (option (list Doc.t))) :
  (∀ i, i < length slots → ∃ group, slots !! i = Some (Some group)) →
  ∃ pages, slots = Some <$> pages.
Proof.
  induction slots as [|slot slots IH]; intros Hall; [by exists []|].
  destruct (Hall 0) as [group [= ->]]; [simpl; lia|].
  destruct IH as [pages ->].
  { intros i Hi. apply (Hall (S i)). simpl. lia. }
  by exists (group :: pages).
Qed.

Lemma mapM_settled (data : list Entry.t) (pages : list (list Doc.t)) :
  length data = length pages →
  mapM settled (zip data (Some <$> pages)) = Ok pages.
Proof.
  revert pages. induction data as [|e data IH]; intros [|group pages] Hlen;
    try done.
  simpl. rewrite IH; [done | by injection Hlen].
Qed.

Lemma omap_Forall2 {A B} (f : A → option B) (l : list A) (k : list B) :
  Forall2 (λ x y, f x = Some y) l k → omap f l = k.
Proof.
  induction 1 as [|x y l k Hxy _ IH]; simpl; [done|].
  rewrite Hxy. f_equal. exact IH.
Qed.

(** The pages after all reads have completed: one group of documents per
    entry, and the ids count up from 1 along the completion order. *)
Lemma gatherPages_spec (data : list Entry.t) (completion : list nat) :
  completion ≡ₚ seq 0 (length data) →
  Forall (readable readFile) data →
  ∃ pages,
    gather_pages data completion = Ok pages
    ∧ length pages = length data
    ∧ Forall2 page_of data pages
    ∧ map Doc.id (concat (omap (λ i, pages !! i) completion))
      = seq 1 (length (concat pages)).
Proof.
  intros Hperm Hread.
  assert (∀ i, i ∈ completion ↔ i < length data) as Hin.
  { intros i. rewrite Hperm, elem_of_seq. lia. }
  destruct (completeReads_spec data completion
              {| nextDocId := 1; fulfilled := replicate (length data) None |})
    as (g & groups & Hrun & Hlen & _ & Hgroups & Hids & _).
  { rewrite Hperm. apply NoDup_seq. }
  { intros i Hi. apply Hin in Hi.
    destruct (lookup_lt_is_Some_2 data i Hi) as [e He].
    exists e. split; [done|]. by eapply (Forall_lookup_1 _ _ _ _ Hread). }
  { simpl. apply length_replicate. }
  destruct (all_fulfilled (fulfilled g)) as [pages Hpages].
  { intros i Hi. rewrite Hlen in Hi. apply Hin in Hi.
    apply list_elem_of_lookup in Hi as [k Hk].
    destruct (Forall2_lookup_l _ _ _ _ _ Hgroups Hk) as (group & _ & Hslot & _).
    by exists group. }
  assert (length pages = length data) as Hlen'.
  { by rewrite <- Hlen, Hpages, length_fmap. }
  assert (Forall2 (λ i group, pages !! i = Some group
                              ∧ ∃ e, data !! i = Some e ∧ page_of e group)
                  completion groups) as Hgroups'.
  { eapply Forall2_impl; [exact Hgroups|]. intros i group [Hslot Hpage].
    split; [|done]. rewrite Hpages, list_lookup_fmap in Hslot.
    destruct (pages !! i); by simplify_eq/=. }
  assert (omap (λ i, pages !! i) completion = groups) as Homap.
  { apply omap_Forall2. eapply Forall2_impl; [exact Hgroups'|]. by intros ?? [? _]. }
  exists pages. split; [|split; [done|split]].
  - unfold gatherPages. rewrite Hrun. simpl. rewrite Hpages.
    by apply mapM_settled.
  - apply Forall2_same_length_lookup_2; [done|]. intros i e group He Hgroup.
    assert (i ∈ completion) as Hi by (apply Hin; by eapply lookup_lt_Some).
    apply list_elem_of_lookup in Hi as [k Hk].
    destruct (Forall2_lookup_l _ _ _ _ _ Hgroups' Hk)
      as (group' & _ & Hgroup' & e' & He' & Hpage).
    by simplify_eq.
  - rewrite Homap, Hids. simpl. f_equal.
    rewrite <- Homap, Hperm, <- Hlen', omap_lookup_seq. done.
Qed.

(** The ids of the gathered documents, whatever the completion order. *)
Lemma gatherPages_permutation (data : list Entry.t) (completion : list nat) :
  completion ≡ₚ seq 0 (length data) →
  Forall (readable readFile) data →
  ∃ pages,
    gather_pages data completion = Ok pages
    ∧ Forall2 page_of data pages
    ∧ map Doc.id (concat pages) ≡ₚ seq 1 (length (concat pages)).
Proof.
  intros Hperm Hread.
  destruct (gatherPages_spec data completion Hperm Hread)
    as (pages & Hrun & Hlen & Hpages & Hids).
  exists pages. split; [done|]. split; [done|].
  rewrite <- Hids. apply Permutation_map. f_equiv.
  rewrite <- (omap_lookup_seq pages) at 1. rewrite Hlen. by rewrite Hperm.
Qed.

(** The ids of the gathered documents when the reads complete in route
    order. *)
Lemma gatherDocuments_in_order (data : list Entry.t) :
  Forall (readable readFile) data →
  ∃ documents,
    gather_documents data (seq 0 (length data)) = Ok documents
    ∧ map Doc.id documents = seq 1 (length documents).
Proof.
  intros Hread.
  destruct (gatherPages_spec data (seq 0 (length data))) as
    (pages & Hrun & Hlen & _ & Hids); [done | done |].
  exists (concat pages). split.
  - unfold gatherDocuments. by rewrite Hrun.
  - by rewrite <- Hlen, omap_lookup_seq in Hids.
Qed.

(** C6: when every page file is read, in whatever order the reads
    complete, the gathered documents carry the ids 1 to their number, each
    once, and the documents of one page carry consecutive ids. *)
Theorem gathered_ids_contiguous (data : list Entry.t) (completion : list nat) :
  completion ≡ₚ seq 0 (length data) →
  Forall (readable readFile) data →
  ∃ pages,
    gather_pages data completion = Ok pages
    ∧ gather_documents data completion = Ok (concat pages)
    ∧ Forall2 page_of data pages
    ∧ map Doc.id (concat pages) ≡ₚ seq 1 (length (concat pages))
    ∧ NoDup (map Doc.id (concat pages))
    ∧ Forall (λ group, ∃ k, map Doc.id group = seq k (length group)) pages.
Proof.
  intros Hperm Hread.
  destruct (gatherPages_permutation data completion Hperm Hread)
    as (pages & Hrun & Hpages & Hall).
  exists pages. split; [done|]. split; [|split; [done|split; [done|split]]].
  - unfold gatherDocuments. by rewrite Hrun.
  - rewrite Hall. apply NoDup_seq.
  - apply Forall_forall. intros group Hgroup.
    apply list_elem_of_lookup in Hgroup as [i Hi].
    destruct (Forall2_lookup_r _ _ _ _ _ Hpages Hi)
      as (e & _ & html & next & _ & ->).
    exists next. apply pageDocuments_ids.
Qed.

(** C1, as the source has it: the ids follow the order in which the reads
    complete.  Listed page by page in completion order, the documents carry
    the ids 1, 2, 3 and so on; the completion order and the input thus fix
    the id of every document, and when the reads complete in route order
    the gathered list itself carries the ids 1, 2, 3 and so on. *)
Theorem ids_follow_completion_order (data : list Entry.t)
    (completion : list nat) :
  completion ≡ₚ seq 0 (length data) →
  Forall (readable readFile) data →
  ∃ pages,
    gather_pages data completion = Ok pages
    ∧ Forall2 page_of data pages
    ∧ map Doc.id (concat (omap (λ i, pages !! i) completion))
      = seq 1 (length (concat pages))
    ∧ (completion = seq 0 (length data) →
       ∃ documents,
         gather_documents data completion = Ok documents
         ∧ map Doc.id documents = seq 1 (length documents)).
Proof.
  intros Hperm Hread.
  destruct (gatherPages_spec data completion Hperm Hread)
    as (pages & Hrun & Hlen & Hpages & Hids).
  exists pages. repeat split; try done.
  intros ->. by apply gatherDocuments_in_order.
Qed.

Local Abbreviation post_build :=
  (postBuild path_join readFile html2text getDocusaurusTag).

(** C2, as the source has it: in the artifact of a partition the index
    holds one reference per summary, in the order of the summaries, which
    is the order of the partition's documents in the gathered list.  The
    summaries have distinct ids, so every reference of the index is the id
    of exactly one summary and every summary's id is a reference of the
    index.  When the reads complete in route order, the summaries are in
    ascending order of id. *)
Theorem artifact_references (p : PluginInstance) (props : Props)
    (completion : list nat) (classified : list Classified)
    (artifacts : gmap string SearchArtifact) :
  classifyAll (plugin_options p) props = Ok classified →
  completion ≡ₚ seq 0 (length classified) →
  Forall (readable readFile) (map (toEntry path_join props) classified) →
  post_build p props completion = Ok artifacts →
  ∀ tag a, artifacts !! tag = Some a →
    Lunr.refs (index a) = map (λ s, pretty (Summary.id s)) (documents a)
    ∧ (∃ gathered,
         gather_documents (map (toEntry path_join props) classified) completion
           = Ok gathered
         ∧ map Summary.id (documents a)
           = map Doc.id (filter (λ d, Doc.docusaurusTag d = tag) gathered))
    ∧ NoDup (map Summary.id (documents a))
    ∧ (∀ r, r ∈ Lunr.refs (index a) →
            ∃ s, s ∈ documents a ∧ pretty (Summary.id s) = r
                 ∧ ∀ s', s' ∈ documents a → pretty (Summary.id s') = r → s' = s)
    ∧ (∀ s, s ∈ documents a → pretty (Summary.id s) ∈ Lunr.refs (index a))
    ∧ (completion = seq 0 (length classified) →
       StronglySorted lt (map Summary.id (documents a))).
Proof.
  intros Hclass Hperm Hread Hrun tag a Ha.
  set (data := map (toEntry path_join props) classified) in *.
  assert (completion ≡ₚ seq 0 (length data)) as Hperm'.
  { unfold data. by rewrite length_map. }
  destruct (gatherPages_permutation data completion Hperm' Hread)
    as (pages & Hpages & _ & Hall).
  assert (gather_documents data completion = Ok (concat pages)) as Hgather.
  { unfold gatherDocuments. by rewrite Hpages. }
  assert (NoDup (map Doc.id (concat pages))) as Hnodup.
  { rewrite Hall. apply NoDup_seq. }
  unfold postBuild in Hrun.
  repeat match type of Hrun with
         | (if ?cond then _ else _) = _ => destruct cond; [discriminate|]
         end.
  rewrite Hclass in Hrun. simpl in Hrun. fold data in Hrun.
  rewrite Hgather in Hrun. simpl in Hrun. injection Hrun as <-.
  rewrite lookup_fmap, documentsByDocusaurusTag_lookup in Ha.
  set (group := filter (λ d, Doc.docusaurusTag d = tag) (concat pages)) in *.
  assert (a = buildArtifact p group) as ->.
  { destruct group; by simplify_eq/=. }
  clear Ha.
  assert (map Summary.id (documents (buildArtifact p group)) = map Doc.id group)
    as Hsummaries.
  { simpl. rewrite map_map. by apply map_ext. }
  assert (Lunr.refs (index (buildArtifact p group))
          = map (λ s, pretty (Summary.id s)) (documents (buildArtifact p group)))
    as Hrefs.
  { unfold Lunr.refs. simpl. rewrite !map_map. by apply map_ext. }
  assert (NoDup (map Summary.id (documents (buildArtifact p group)))) as Hids.
  { rewrite Hsummaries. by apply NoDup_map_filter. }
  split; [done|]. split; [by exists (concat pages)|]. split; [done|].
  split; [|split].
  - intros r Hr. rewrite Hrefs in Hr.
    apply list_elem_of_In, in_map_iff in Hr as (s & Hs & Hin).
    apply list_elem_of_In in Hin.
    exists s. split; [done|]. split; [done|]. intros s' Hin' Hs'.
    apply (NoDup_map_eq Summary.id _ _ _ Hids Hin' Hin).
    apply (inj pretty). congruence.
  - intros s Hs. rewrite Hrefs.
    apply list_elem_of_In, (in_map (λ s, pretty (Summary.id s))).
    by apply list_elem_of_In.
  - intros ->. rewrite Hsummaries.
    destruct (gatherDocuments_in_order data Hread) as (gathered & Hgather' & Hseq).
    replace (length data) with (length classified) in Hgather'
      by (unfold data; by rewrite length_map).
    rewrite Hgather in Hgather'. injection Hgather' as <-.
    apply StronglySorted_map_filter. rewrite Hseq. apply StronglySorted_seq.
Qed.

End Gathering.

(** ** The small site, gathered *)

Lemma site_completion : [1; 0; 2] ≡ₚ seq 0 (length Site.data).
Proof. apply perm_swap. Qed.

Lemma site_readable : Forall (readable Site.readFile) Site.data.
Proof. repeat constructor; eexists; reflexivity. Qed.

Lemma gathered_ids_contiguous_witness :
  ∃ pages,
    gatherPages Site.readFile Site.html2text Site.getDocusaurusTag Site.data [1; 0; 2]
      = Ok pages
    ∧ map Doc.id (concat pages) ≡ₚ seq 1 (length (concat pages)).
Proof.
  destruct (gathered_ids_contiguous Site.readFile Site.html2text
              Site.getDocusaurusTag Site.data [1; 0; 2]
              site_completion site_readable)
    as (pages & Hpages & _ & _ & Hids & _).
  by exists pages.
Defined.

Lemma ids_follow_completion_order_witness :
  ∃ pages,
    gatherPages Site.readFile Site.html2text Site.getDocusaurusTag Site.data [1; 0; 2]
      = Ok pages
    ∧ map Doc.id (concat (omap (λ i, pages !! i) [1; 0; 2]))
      = seq 1 (length (concat pages)).
Proof.
  destruct (ids_follow_completion_order Site.readFile Site.html2text
              Site.getDocusaurusTag Site.data [1; 0; 2]
              site_completion site_readable)
    as (pages & Hpages & _ & Hids & _).
  by exists pages.
Defined.

(** C1 as stated fails: on the same entries and files, the reads completing
    in route order and the reads of the first two pages completing the other
    way round give the documents different ids. *)
Lemma ids_depend_on_completion_order :
  [1; 0; 2] ≡ₚ seq 0 (length Site.data)
  ∧ ∃ documents documents',
      gatherDocuments Site.readFile Site.html2text Site.getDocusaurusTag
        Site.data [0; 1; 2] = Ok documents
      ∧ gatherDocuments Site.readFile Site.html2text Site.getDocusaurusTag
          Site.data [1; 0; 2] = Ok documents'
      ∧ map Doc.sectionRoute documents = map Doc.sectionRoute documents'
      ∧ map Doc.id documents = [1; 2; 3; 4]
      ∧ map Doc.id documents' = [2; 3; 1; 4].
Proof.
  split; [apply site_completion|].
  eexists. eexists. split; [reflexivity|]. split; [reflexivity|]. by repeat split.
Qed.

Lemma site_classified : classifyAll (plugin_options Site.plugin) Site.props = Ok Site.classified.
Proof. reflexivity. Qed.


Lemma site_artifacts :
  ∃ artifacts a,
    postBuild Site.path_join Site.readFile Site.html2text Site.getDocusaurusTag
      Site.plugin Site.props [1; 0; 2] = Ok artifacts
    ∧ artifacts !! "docs-default-current" = Some a
    ∧ map Summary.id (documents a) = [2; 3; 1]
    ∧ Lunr.refs (index a) = ["2"; "3"; "1"].
Proof.
  destruct (postBuild Site.path_join Site.readFile Site.html2text
              Site.getDocusaurusTag Site.plugin Site.props [1; 0; 2])
    as [artifacts|] eqn:Hrun; [|by vm_compute in Hrun].
  exists artifacts.
  destruct (artifacts !! "docs-default-current") as [a|] eqn:Ha;
    vm_compute in Hrun; injection Hrun as <-; vm_compute in Ha; [|done].
  exists a. injection Ha as <-. by repeat split.
Qed.

Lemma artifact_references_witness :
  ∃ artifacts a,
    postBuild Site.path_join Site.readFile Site.html2text Site.getDocusaurusTag
      Site.plugin Site.props [1; 0; 2] = Ok artifacts
    ∧ artifacts !! "docs-default-current" = Some a
    ∧ Lunr.refs (index a) = map (λ s, pretty (Summary.id s)) (documents a)
    ∧ NoDup (map Summary.id (documents a)).
Proof.
  destruct site_artifacts as (artifacts & a & Hrun & Ha & _).
  exists artifacts, a. split; [done|]. split; [done|].
  destruct (artifact_references Site.path_join Site.readFile Site.html2text
              Site.getDocusaurusTag Site.plugin Site.props [1; 0; 2]
              Site.classified artifacts site_classified site_completion
              site_readable Hrun "docs-default-current" a Ha)
    as (Hrefs & _ & Hnodup & _).
  split; [exact Hrefs | exact Hnodup].
Defined.

(** C2 as stated fails: when the read of the second page completes before
    the read of the first, the summaries of the docs partition are listed
    with the ids 2, 3, 1. *)
Lemma summaries_not_ascending :
  [1; 0; 2] ≡ₚ seq 0 (length Site.classified)
  ∧ ∃ artifacts a,
      postBuild Site.path_join Site.readFile Site.html2text Site.getDocusaurusTag
        Site.plugin Site.props [1; 0; 2] = Ok artifacts
      ∧ artifacts !! "docs-default-current" = Some a
      ∧ map Summary.id (documents a) = [2; 3; 1]
      ∧ Lunr.refs (index a) = ["2"; "3"; "1"].
Proof. split; [apply site_completion | apply site_artifacts]. Qed.

(** * Further properties of the code *)

(** ** Base paths *)

Lemma append_cons (c : Ascii.ascii) (s t : string) :
  String c s +:+ t = String c (s +:+ t).
Proof. reflexivity. Qed.

Lemma append_nil_r (s : string) : s +:+ "" = s.
Proof.
  induction s as [|c s IH]; [reflexivity|]. rewrite append_cons. by rewrite IH.
Qed.

Lemma endsWith_unfold (s p : string) :
  endsWith s p =
    String.eqb s p
    || match s with EmptyString => false | String _ s' => endsWith s' p end.
Proof. by destruct s. Qed.

Lemma endsWith_refl (s : string) : endsWith s s = true.
Proof. by rewrite endsWith_unfold, String.eqb_refl. Qed.

Lemma endsWith_app (s t : string) : endsWith (s +:+ t) t = true.
Proof.
  induction s as [|c s IH]; [apply endsWith_refl|].
  rewrite append_cons, endsWith_unfold, IH. apply orb_true_r.
Qed.

Lemma endsWith_cons (c : Ascii.ascii) (s t : string) :
  s ≠ "" → endsWith s t = false → String.length t = 1 →
  endsWith (String c s) t = false.
Proof.
  intros Hs Hend Hlen. rewrite endsWith_unfold, Hend, orb_false_r.
  apply String.eqb_neq. intros <-. simpl in Hlen. destruct s; [done|discriminate].
Qed.

Lemma slice_to_last_snoc (s : string) (c : Ascii.ascii) :
  slice_to_last (s +:+ String c "") = s.
Proof.
  induction s as [|d s IH]; [reflexivity|].
  rewrite append_cons. simpl. rewrite IH.
  destruct s; reflexivity.
Qed.

Lemma trimLeadingSlash_id (s : string) :
  startsWith s "/" = false → trimLeadingSlash s = s.
Proof. unfold trimLeadingSlash. intros ->. by rewrite orb_true_r. Qed.

Lemma trimTrailingSlash_id (s : string) :
  endsWith s "/" = false → trimTrailingSlash s = s.
Proof. unfold trimTrailingSlash. intros ->. by rewrite orb_true_r. Qed.

Lemma trimTrailingSlash_snoc (s : string) : trimTrailingSlash (s +:+ "/") = s.
Proof.
  unfold trimTrailingSlash. rewrite endsWith_app. simpl.
  destruct (String.eqb (s +:+ "/") "") eqn:Heq.
  - apply String.eqb_eq in Heq. destruct s; discriminate.
  - apply slice_to_last_snoc.
Qed.

Lemma trimLeadingSlash_cons (s : string) : trimLeadingSlash ("/" +:+ s) = s.
Proof. reflexivity. Qed.

(** X1: A [routeBasePath] may be written with or without a slash at either end:
    for a path [p] that neither starts nor ends with a slash, the options
    [p], [/p], [p/] and [/p/] all give the base path [p], which
    [urlMatchesPrefix] takes without throwing. *)
Theorem basePathOf_slashes (plugin : LoadedPlugin) (p : string) :
  startsWith p "/" = false →
  endsWith p "/" = false →
  routeBasePath (options plugin) = p
  ∨ routeBasePath (options plugin) = "/" +:+ p
  ∨ routeBasePath (options plugin) = p +:+ "/"
  ∨ routeBasePath (options plugin) = "/" +:+ p +:+ "/" →
  basePathOf plugin = p
  ∧ ∀ route, ∃ accepted, urlMatchesPrefix route (basePathOf plugin) = Ok accepted.
Proof.
  intros Hstart Hend Hoption.
  assert (basePathOf plugin = p) as ->.
  { unfold basePathOf.
    destruct Hoption as [-> | [-> | [-> | ->]]].
    - by rewrite trimTrailingSlash_id, trimLeadingSlash_id.
    - destruct p as [|c p]; [reflexivity|].
      rewrite trimTrailingSlash_id; [reflexivity|].
      by apply endsWith_cons.
    - by rewrite trimTrailingSlash_snoc, trimLeadingSlash_id.
    - change ("/" +:+ p +:+ "/") with (("/" +:+ p) +:+ "/").
      by rewrite trimTrailingSlash_snoc. }
  split; [done|]. intros route. unfold urlMatchesPrefix.
  rewrite Hstart, Hend. eauto.
Qed.

Lemma basePathOf_slashes_witness :
  basePathOf Site2.untaggedDocsPlugin = "docs".
Proof.
  apply (basePathOf_slashes Site2.untaggedDocsPlugin "docs");
    [reflexivity | reflexivity | by repeat right].
Defined.

(** ** Edge cases of the route filter *)

(** X2: A docs instance whose tag pages sit directly under its base path
    ([tagsBasePath] empty or a lone slash) breaks the filter: under a
    non-empty base path the tag prefix ends with a slash and the first
    accepted route makes [urlMatchesPrefix] throw; under the empty base path
    the tag prefix is empty, accepts every route, and nothing is kept. *)
Theorem docsBody_empty_tags_path (r u : string) (plugin : LoadedPlugin) :
  tagsPathOf plugin = "" →
  urlMatchesPrefix r (basePathOf plugin) = Ok true →
  docsBody r u plugin =
    if String.eqb (basePathOf plugin) "" then Ok (Return [])
    else Throw (PrefixEndsWithSlash r (basePathOf plugin +:+ "/")).
Proof.
  intros Htags Hbase. unfold docsBody. rewrite Hbase, Htags. simpl.
  destruct (basePathOf plugin) as [|c b] eqn:Hb; [reflexivity|].
  assert (startsWith (String c b) "/" = false) as Hstart.
  { unfold urlMatchesPrefix in Hbase. by destruct (startsWith (String c b) "/"). }
  change (String c b +:+ "/" +:+ "") with (String c (b +:+ "/")).
  assert (startsWith (String c (b +:+ "/")) "/" = false) as Hstart'.
  { exact Hstart. }
  rewrite (trimLeadingSlash_id _ Hstart'). unfold urlMatchesPrefix at 1.
  rewrite Hstart'. change (String c (b +:+ "/")) with (String c b +:+ "/").
  by rewrite endsWith_app.
Qed.

Lemma docsBody_empty_tags_path_witness :
  docsBody "docs/intro" "/docs/intro" Site2.untaggedDocsPlugin
  = Throw (PrefixEndsWithSlash "docs/intro" "docs/").
Proof.
  apply (docsBody_empty_tags_path "docs/intro" "/docs/intro"
           Site2.untaggedDocsPlugin); reflexivity.
Defined.

Lemma mapM_Ok {A B} (f : A → Result B) (l : list A) (rs : list B) :
  mapM f l = Ok rs → Forall2 (λ a r, f a = Ok r) l rs.
Proof.
  revert rs. induction l as [|a l IH]; simpl; intros rs H.
  - injection H as <-. constructor.
  - apply bind_Ok in H as (r & Ha & H). apply bind_Ok in H as (rs' & Hl & H).
    injection H as <-. constructor; auto.
Qed.

Lemma mapM_Throw {A B} (f : A → Result B) (l : list A) :
  Exists (λ a, is_ok (f a) = false) l → is_ok (mapM f l) = false.
Proof.
  induction 1 as [a l Ha | a l _ IH]; simpl.
  - by destruct (f a).
  - destruct (f a); [|done]. simpl. by destruct (mapM f l).
Qed.

(** What the filter returns for one address, without the plugin that
    decided. *)
Lemma classify_kept (o : MyOptions) (props : Props) (u : string)
    (l : list Classified) :
  classify o props u = Ok l →
  startsWith u (baseUrl props) = true
  ∧ (l = [] ∨
     ∃ t, l = [{| route := substring_from (String.length (baseUrl props)) u;
                  url := u; type := t |}]
          ∧ substring_from (String.length (baseUrl props)) u ≠ "404.html").
Proof.
  unfold classify. intros H.
  destruct (startsWith u (baseUrl props)); [|discriminate]. split; [done|].
  simpl in H.
  destruct (String.eqb _ "404.html") eqn:H404; [injection H as <-; by left|].
  apply String.eqb_neq in H404.
  apply block_Ok in H as [[_ H]|[_ H]].
  { apply for_of_Return in H as (_ & p & _ & _ & _ & Hp).
    apply docsBody_Return in Hp as [_ [->|[-> _]]]; [by left | right; eauto]. }
  apply block_Ok in H as [[_ H]|[_ H]].
  { apply for_of_Return in H as (_ & p & _ & _ & _ & Hp).
    apply blogBody_Return in Hp as [_ [->|[-> _]]]; [by left | right; eauto]. }
  apply block_Ok in H as [[_ H]|[_ H]].
  { apply for_of_Return in H as (_ & p & _ & _ & _ & Hp).
    apply pagesBody_Return in Hp as [_ [->|[-> _]]]; [by left | right; eauto]. }
  injection H as <-. by left.
Qed.

Lemma substring_from_app (b rest : string) :
  substring_from (String.length b) (b +:+ rest) = rest.
Proof. induction b as [|c b IH]; [by destruct rest|]. exact IH. Qed.

(** X3: The filter keeps routes in the order of [routesPaths] and keeps none
    twice over: the kept addresses are a sublist of [routesPaths], each
    is the base URL followed by its route, and no kept route is the error
    page. *)
Theorem classifyAll_sublist (o : MyOptions) (props : Props)
    (l : list Classified) :
  classifyAll o props = Ok l →
  sublist (map url l) (routesPaths props)
  ∧ Forall (λ c, url c = baseUrl props +:+ route c
                 ∧ route c = substring_from (String.length (baseUrl props)) (url c)
                 ∧ route c ≠ "404.html") l.
Proof.
  unfold classifyAll. intros H. apply bind_Ok in H as (rs & Hrs & H).
  injection H as <-. apply mapM_Ok in Hrs.
  induction Hrs as [|u r us rs Hu _ [IHsub IHall]]; simpl.
  { split; constructor. }
  apply classify_kept in Hu as [Hstart [->|(t & -> & H404)]]; simpl.
  - split; [by apply sublist_cons | done].
  - split; [by apply sublist_skip|]. constructor; [|done]. simpl.
    split; [|done]. apply startsWith_spec in Hstart as [rest ->].
    by rewrite substring_from_app.
Qed.

Lemma classifyAll_sublist_witness :
  sublist (map url Site.classified) (routesPaths Site.props).
Proof.
  apply (classifyAll_sublist Site.defaults Site.props Site.classified).
  reflexivity.
Defined.

(** X4: One produced route that does not start with the base URL aborts the
    hook: neither the filter nor [postBuild] returns, whatever the other
    routes, the plugins and the order of the reads are. *)
Theorem route_outside_baseUrl_aborts (path_join : list string → string)
    (readFile : string → option string)
    (html2text : string → ContentType → string → Parsed.t)
    (getDocusaurusTag : string → string)
    (p : PluginInstance) (props : Props) (completion : list nat) (u : string) :
  u ∈ routesPaths props →
  startsWith u (baseUrl props) = false →
  classify (plugin_options p) props u
    = Throw (RouteOutsideBaseUrl (baseUrl props)
               (substring_from (String.length (baseUrl props)) u))
  ∧ is_ok (classifyAll (plugin_options p) props) = false
  ∧ is_ok (postBuild path_join readFile html2text getDocusaurusTag
             p props completion) = false.
Proof.
  intros Hin Hstart.
  assert (classify (plugin_options p) props u
          = Throw (RouteOutsideBaseUrl (baseUrl props)
                     (substring_from (String.length (baseUrl props)) u))) as Hu.
  { unfold classify. by rewrite Hstart. }
  assert (is_ok (classifyAll (plugin_options p) props) = false) as Hall.
  { unfold classifyAll.
    assert (is_ok (mapM (classify (plugin_options p) props) (routesPaths props))
            = false) as Hmap.
    { apply mapM_Throw, Exists_exists. exists u. split; [done|]. by rewrite Hu. }
    by destruct (mapM _ _). }
  split; [done|]. split; [done|]. unfold postBuild.
  repeat match goal with
         | |- context [if ?cond then _ else _] => destruct cond; [done|]
         end.
  by destruct (classifyAll _ _).
Qed.

Lemma route_outside_baseUrl_aborts_witness :
  is_ok (postBuild Site.path_join Site.readFile Site.html2text
           Site.getDocusaurusTag Site.plugin
           {| routesPaths := ["/docs/intro"; "docs/setup"]; outDir := "build";
              baseUrl := "/"; trailingSlash := None;
              plugins := [Site.docsPlugin; Site.blogPlugin] |} [0])
  = false.
Proof.
  eapply (route_outside_baseUrl_aborts _ _ _ _ _ _ _ "docs/setup");
    [by right; left | reflexivity].
Defined.

Lemma completeReads_no_data (readFile : string → option string)
    (html2text : string → ContentType → string → Parsed.t)
    (getDocusaurusTag : string → string) (completion : list nat) (g : Gathering) :
  completeReads readFile html2text getDocusaurusTag [] completion g = Ok g.
Proof. induction completion as [|i rest IH]; simpl; [done | exact IH]. Qed.

(** X5: With docs, blog and pages all switched off the hook reads no plugin
    option and no file: if every produced route starts with the base URL it
    returns, with no artifact at all. *)
Theorem postBuild_nothing_enabled (path_join : list string → string)
    (readFile : string → option string)
    (html2text : string → ContentType → string → Parsed.t)
    (getDocusaurusTag : string → string)
    (p : PluginInstance) (props : Props) (completion : list nat) :
  indexDocs (plugin_options p) = false →
  indexBlog (plugin_options p) = false →
  indexPages (plugin_options p) = false →
  Forall (λ u, startsWith u (baseUrl props) = true) (routesPaths props) →
  classifyAll (plugin_options p) props = Ok []
  ∧ postBuild path_join readFile html2text getDocusaurusTag p props completion
    = Ok ∅.
Proof.
  intros Hdocs Hblog Hpages Hroutes.
  assert (classifyAll (plugin_options p) props = Ok []) as Hclass.
  { unfold classifyAll.
    assert (mapM (classify (plugin_options p) props) (routesPaths props)
            = Ok (map (λ _, []) (routesPaths props))) as ->.
    { induction Hroutes as [|u us Hu _ IH]; simpl; [done|].
      unfold classify at 1. rewrite Hu, Hdocs, Hblog, Hpages. simpl.
      rewrite IH. simpl.
      by match goal with |- context [if ?c then _ else _] => destruct c end. }
    unfold bind. f_equal. clear Hroutes.
    induction (routesPaths props) as [|u us IH]; [done | exact IH]. }
  split; [done|]. unfold postBuild. rewrite Hdocs, Hblog, Hpages, Hclass. simpl.
  unfold gatherDocuments, gatherPages. simpl.
  by rewrite completeReads_no_data.
Qed.

Lemma postBuild_nothing_enabled_witness :
  postBuild Site.path_join Site.readFile Site.html2text Site.getDocusaurusTag
    {| plugin_options :=
         {| indexDocs := false; indexDocSidebarParentCategories := 0;
            includeParentCategoriesInPageTitle := false; indexBlog := false;
            indexPages := false; language := LangCode "en"; style_none := false;
            maxSearchResults := 8; filterByPathName := false; subPath := (-1)%Z;
            lunr := Site.lunrOptions |};
       generated := ""; lunr_separator := None; lunr_modules := [] |}
    Site.props [3; 1] = Ok ∅.
Proof.
  apply postBuild_nothing_enabled; try reflexivity.
  by repeat constructor.
Defined.

(** ** The plugin maps *)

Lemma Map_new_snoc {V} (entries : list (string * V)) (e : string * V) :
  Map_new (entries ++ [e]) = Map_set e.1 e.2 (Map_new entries).
Proof. unfold Map_new. by rewrite foldl_snoc. Qed.

Lemma Map_set_fresh {V} (k : string) (v : V) (m : list (string * V)) :
  k ∉ m.*1 → Map_set k v m = m ++ [(k, v)].
Proof.
  induction m as [|[k' v'] m IH]; simpl; intros Hk; [done|].
  apply not_elem_of_cons in Hk as [Hne Hk].
  destruct (String.eqb_spec k' k) as [->|_]; [done|]. by rewrite IH.
Qed.

Lemma Map_set_present {V} (k : string) (v : V) (m : list (string * V)) :
  k ∈ m.*1 → (Map_set k v m).*1 = m.*1.
Proof.
  induction m as [|[k' v'] m IH]; simpl; intros Hk.
  { by apply elem_of_nil in Hk. }
  destruct (String.eqb_spec k' k) as [->|Hne]; [done|]. csimpl.
  apply elem_of_cons in Hk as [->|Hk]; [done|]. by rewrite IH.
Qed.

Lemma Map_set_elem {V} (k : string) (v : V) (m : list (string * V))
    (k' : string) (v' : V) :
  (k', v') ∈ Map_set k v m → (k', v') = (k, v) ∨ (k', v') ∈ m.
Proof.
  induction m as [|[k0 v0] m IH]; simpl; intros Hin.
  { apply list_elem_of_singleton in Hin. by left. }
  destruct (String.eqb_spec k0 k) as [->|Hne].
  - apply elem_of_cons in Hin as [->|Hin]; [by left|].
    right. by apply list_elem_of_further.
  - apply elem_of_cons in Hin as [->|Hin]; [right; apply list_elem_of_here|].
    destruct (IH Hin) as [?|?]; [by left|]. right. by apply list_elem_of_further.
Qed.

Lemma Map_new_keys {V} (entries : list (string * V)) :
  NoDup (Map_new entries).*1
  ∧ (∀ k, k ∈ (Map_new entries).*1 ↔ k ∈ entries.*1)
  ∧ (∀ e, e ∈ Map_new entries → e ∈ entries).
Proof.
  induction entries as [|[k v] entries (Hnodup & Hkeys & Helem)] using rev_ind.
  { split; [constructor|]. split; [done|]. by intros e He. }
  rewrite Map_new_snoc. simpl.
  destruct (decide (k ∈ (Map_new entries).*1)) as [Hk|Hk].
  - split; [by rewrite Map_set_present|]. split.
    + intros k'. rewrite Map_set_present by done.
      rewrite fmap_app, elem_of_app, Hkeys. simpl.
      split; [by left|]. intros [?|Hk']; [done|].
      apply list_elem_of_singleton in Hk' as ->. by apply Hkeys.
    + intros [k' v'] Hin. apply Map_set_elem in Hin as [->|Hin].
      * apply elem_of_app. right. apply list_elem_of_here.
      * apply elem_of_app. left. by apply Helem.
  - rewrite Map_set_fresh by done. split; [|split].
    + rewrite fmap_app. simpl. apply NoDup_app. split; [done|].
      split; [|apply NoDup_singleton].
      intros k' Hk' Hin. apply list_elem_of_singleton in Hin as ->. done.
    + intros k'. rewrite !fmap_app, !elem_of_app. by rewrite Hkeys.
    + intros e. rewrite !elem_of_app. intros [?|?]; [left; by apply Helem | by right].
Qed.

Lemma Map_new_distinct {V} (entries : list (string * V)) :
  NoDup entries.*1 → Map_new entries = entries.
Proof.
  induction entries as [|[k v] entries IH] using rev_ind; intros Hnodup; [done|].
  rewrite fmap_app in Hnodup. apply NoDup_app in Hnodup as (Hnodup & Hk & _).
  rewrite Map_new_snoc, IH by done. simpl. apply Map_set_fresh.
  intros Hin. apply (Hk k Hin). apply list_elem_of_here.
Qed.

Lemma keys_of_values {V} (f : V → string) (m : list (string * V)) :
  Forall (λ e, e.1 = f e.2) m → map f m.*2 = m.*1.
Proof.
  induction 1 as [|[k v] m He _ IH]; [done|]. simpl in *.
  change (f v :: map f m.*2 = k :: m.*1). by rewrite IH, He.
Qed.

Lemma registered_entries (props : Props) (n : string) :
  registered props n
  = (Map_new (map (λ plugin, (opt_id (options plugin), plugin)) (named props n))).*2.
Proof. reflexivity. Qed.

Lemma buildPluginMap_empty (props : Props) (n : string) :
  length (buildPluginMap (plugins props) n) = 0 ↔ named props n = [].
Proof.
  unfold buildPluginMap. fold (named props n).
  set (entries := map (λ plugin, (opt_id (options plugin), plugin)) (named props n)).
  destruct (Map_new_keys entries) as (_ & Hkeys & _). split.
  - intros Hlen. destruct (named props n) as [|plugin rest] eqn:Hnamed; [done|].
    exfalso.
    assert (opt_id (options plugin) ∈ (Map_new entries).*1) as Hk.
    { apply Hkeys. unfold entries. simpl. apply list_elem_of_here. }
    destruct (Map_new entries); [by apply elem_of_nil in Hk | discriminate].
  - unfold entries. by intros ->.
Qed.

(** X6: The map that [buildPluginMap] builds for a plugin name holds only
    plugins of that name taken from the list of plugins, no id twice and
    every id of such a plugin once; it is empty exactly when no plugin has
    the name. *)
Theorem buildPluginMap_registered (props : Props) (n : string) :
  Forall (λ plugin, name plugin = n ∧ plugin ∈ plugins props) (registered props n)
  ∧ NoDup (map (λ plugin, opt_id (options plugin)) (registered props n)
           : list string)
  ∧ (∀ plugin, plugin ∈ plugins props → name plugin = n →
       ∃ q, q ∈ registered props n
            ∧ opt_id (options q) = opt_id (options plugin))
  ∧ (length (buildPluginMap (plugins props) n) = 0 ↔ named props n = []).
Proof.
  set (entries := map (λ plugin, (opt_id (options plugin), plugin)) (named props n)).
  destruct (Map_new_keys entries) as (Hnodup & Hkeys & Helem).
  assert (∀ e, e ∈ Map_new entries →
               e.1 = opt_id (options e.2) ∧ name e.2 = n ∧ e.2 ∈ plugins props)
    as Hentry.
  { intros e He. apply Helem in He. unfold entries in He.
    apply list_elem_of_In, in_map_iff in He as (plugin & <- & Hin).
    apply list_elem_of_In, list_elem_of_filter in Hin as [Hname Hin]. done. }
  split; [|split; [|split]].
  - rewrite registered_entries. fold entries. apply Forall_forall.
    intros plugin Hin. apply list_elem_of_fmap in Hin as (e & -> & He).
    by apply Hentry.
  - rewrite registered_entries. fold entries.
    rewrite keys_of_values; [done|].
    apply Forall_forall. intros e He. by apply Hentry.
  - intros plugin Hin Hname.
    assert (opt_id (options plugin) ∈ (Map_new entries).*1) as Hk.
    { apply Hkeys. unfold entries. apply list_elem_of_fmap.
      exists (opt_id (options plugin), plugin). split; [done|].
      apply list_elem_of_In, in_map_iff. exists plugin. split; [done|].
      apply list_elem_of_In, list_elem_of_filter. done. }
    apply list_elem_of_fmap in Hk as (e & Hk & He).
    exists e.2. split.
    + rewrite registered_entries. fold entries. apply list_elem_of_fmap. eauto.
    + destruct (Hentry e He) as [<- _]. done.
  - apply buildPluginMap_empty.
Qed.

(** X7: When the plugins of a name have distinct ids, as Docusaurus sees to,
    the filter tries exactly these plugins, in the order in which they are
    registered. *)
Theorem buildPluginMap_distinct_ids (props : Props) (n : string) :
  NoDup (map (λ plugin, opt_id (options plugin)) (named props n) : list string) →
  registered props n = named props n.
Proof.
  intros Hnodup. rewrite registered_entries, Map_new_distinct.
  - unfold Map_values. induction (named props n) as [|q l IH]; [done|].
    csimpl. f_equal. apply IH. by apply NoDup_cons in Hnodup as [_ ?].
  - assert ((map (λ plugin, (opt_id (options plugin), plugin)) (named props n)).*1
            = map (λ plugin, opt_id (options plugin)) (named props n)) as ->; [|done].
    clear Hnodup. induction (named props n) as [|q l IH]; [done|]. csimpl.
    by rewrite IH.
Qed.

Lemma buildPluginMap_distinct_ids_witness :
  registered Site.props "docusaurus-plugin-content-blog" = [Site.blogPlugin].
Proof.
  apply (buildPluginMap_distinct_ids Site.props "docusaurus-plugin-content-blog").
  vm_compute. apply NoDup_singleton.
Defined.

(** X8: [postBuild] refuses to run for an enabled content type without a plugin:
    it throws for docs first, then for blog, then for pages, before it looks
    at any route or file. *)
Theorem postBuild_missing_plugin (path_join : list string → string)
    (readFile : string → option string)
    (html2text : string → ContentType → string → Parsed.t)
    (getDocusaurusTag : string → string)
    (p : PluginInstance) (props : Props) (completion : list nat) :
  let o := plugin_options p in
  let run := postBuild path_join readFile html2text getDocusaurusTag
               p props completion in
  let missing (enabled : bool) (n : string) := enabled = true ∧ named props n = [] in
  (missing (indexDocs o) "docusaurus-plugin-content-docs" →
   run = Throw NoDocsPlugin)
  ∧ (¬ missing (indexDocs o) "docusaurus-plugin-content-docs" →
     missing (indexBlog o) "docusaurus-plugin-content-blog" →
     run = Throw NoBlogPlugin)
  ∧ (¬ missing (indexDocs o) "docusaurus-plugin-content-docs" →
     ¬ missing (indexBlog o) "docusaurus-plugin-content-blog" →
     missing (indexPages o) "docusaurus-plugin-content-pages" →
     run = Throw NoPagesPlugin).
Proof.
  intros o run missing.
  assert (∀ enabled n,
            enabled && (length (buildPluginMap (plugins props) n) =? 0) = true
            ↔ missing enabled n) as Hcheck.
  { intros enabled n. unfold missing.
    rewrite andb_true_iff, Nat.eqb_eq, buildPluginMap_empty. done. }
  assert (∀ enabled n,
            ¬ missing enabled n →
            enabled && (length (buildPluginMap (plugins props) n) =? 0) = false)
    as Hpass.
  { intros enabled n Hnot. apply not_true_is_false. by rewrite Hcheck. }
  unfold run, postBuild. fold o. repeat split.
  - intros Hdocs. apply Hcheck in Hdocs. by rewrite Hdocs.
  - intros Hdocs Hblog. apply Hcheck in Hblog. by rewrite (Hpass _ _ Hdocs), Hblog.
  - intros Hdocs Hblog Hpages. apply Hcheck in Hpages.
    by rewrite (Hpass _ _ Hdocs), (Hpass _ _ Hblog), Hpages.
Qed.

Lemma postBuild_missing_plugin_witness :
  postBuild Site.path_join Site.readFile Site.html2text Site.getDocusaurusTag
    Site.plugin
    {| routesPaths := ["/docs/intro"]; outDir := "build"; baseUrl := "/";
       trailingSlash := None; plugins := [Site.docsPlugin] |} [0]
  = Throw NoBlogPlugin.
Proof.
  apply (postBuild_missing_plugin Site.path_join Site.readFile Site.html2text
           Site.getDocusaurusTag Site.plugin).
  - by intros [_ ?].
  - by split.
Defined.

(** ** The outcome of the constructor *)

Lemma append_inj (p a b : string) : p +:+ a = p +:+ b → a = b.
Proof.
  induction p as [|c p IH]; [done|]. rewrite !append_cons.
  intros H. injection H as H. by apply IH.
Qed.

Lemma handleLangCode_jp : handleLangCode "jp" = Throw LanguageJpDeprecated.
Proof. reflexivity. Qed.

Lemma handleLangCode_Ok (code : string) :
  code ≠ "jp" →
  ∃ mods text,
    handleLangCode code = Ok (mods ++ ["lunr-languages/lunr." +:+ code], text)
    ∧ (mods = [] ∨ mods = ["lunr-languages/tinyseg"]
       ∨ mods = ["lunr-languages/wordcut"]).
Proof.
  intros Hjp. unfold handleLangCode.
  destruct (String.eqb_spec code "jp") as [?|_]; [done|].
  destruct (String.eqb code "ja").
  { eexists _, _. split; [reflexivity|]. by right; left. }
  destruct (String.eqb code "th" || String.eqb code "hi").
  { eexists _, _. split; [reflexivity|]. by right; right. }
  eexists _, _. split; [reflexivity|]. by left.
Qed.

Lemma handleLangCode_text (code : string) (r : list string * string) :
  handleLangCode code = Ok r → "lunr-languages/lunr.en" ∈ r.1 → code = "en".
Proof.
  intros Hr Hin.
  destruct (decide (code = "jp")) as [->|Hjp]; [discriminate|].
  destruct (handleLangCode_Ok code Hjp) as (mods & text & Hcode & Hmods).
  rewrite Hcode in Hr. injection Hr as <-. simpl in Hin.
  apply elem_of_app in Hin as [Hin|Hin].
  - destruct Hmods as [-> | [-> | ->]].
    + by apply elem_of_nil in Hin.
    + by apply list_elem_of_singleton in Hin.
    + by apply list_elem_of_singleton in Hin.
  - apply list_elem_of_singleton in Hin.
    by apply (append_inj "lunr-languages/lunr." "en" code) in Hin.
Qed.

Lemma handleLangCodes_jp (codes : list string) (acc : list string * string) :
  "jp" ∈ codes → handleLangCodes codes acc = Throw LanguageJpDeprecated.
Proof.
  revert acc. induction codes as [|code codes IH]; intros acc Hin.
  { by apply elem_of_nil in Hin. }
  simpl. destruct (decide (code = "jp")) as [->|Hne]; [done|].
  destruct (handleLangCode_Ok code Hne) as (mods & text & -> & _). simpl.
  apply IH. by apply elem_of_cons in Hin as [?|?].
Qed.

Lemma handleLangCodes_Ok (codes : list string) (acc : list string * string) :
  "jp" ∉ codes →
  ∃ mods text,
    handleLangCodes codes acc = Ok (acc.1 ++ mods, acc.2 +:+ text)
    ∧ ("lunr-languages/lunr.en" ∈ mods → "en" ∈ codes).
Proof.
  revert acc. induction codes as [|code codes IH]; intros acc Hjp; simpl.
  { exists [], "". rewrite app_nil_r, append_nil_r. split; [by destruct acc|].
    intros Hin. by apply elem_of_nil in Hin. }
  apply not_elem_of_cons in Hjp as [Hne Hjp].
  destruct (handleLangCode code) as [r|] eqn:Hcode; simpl.
  - destruct (IH (acc.1 ++ r.1, acc.2 +:+ r.2) Hjp) as (mods & text & -> & Hen).
    exists (r.1 ++ mods), (r.2 +:+ text). simpl.
    rewrite app_assoc, append_assoc. split; [done|].
    intros Hin. apply elem_of_app in Hin as [Hin|Hin].
    + apply elem_of_cons. left. symmetry. by eapply handleLangCode_text.
    + apply elem_of_cons. right. by apply Hen.
  - destruct (handleLangCode_Ok code (not_eq_sym Hne)) as (? & ? & ? & _).
    congruence.
Qed.

Lemma load_languages_jp (l : LanguageOption) (g : string) :
  "jp" ∈ codesOf l → load_languages l g = Throw LanguageJpDeprecated.
Proof.
  destruct l as [code|codes]; simpl; intros Hin.
  - apply list_elem_of_singleton in Hin as <-. reflexivity.
  - unfold load_languages. simpl. rewrite handleLangCodes_jp; [done|].
    by apply list_elem_of_filter.
Qed.

Lemma load_languages_Ok (l : LanguageOption) (g : string) :
  "jp" ∉ codesOf l →
  ∃ mods text,
    load_languages l g = Ok (mods, g +:+ text)
    ∧ ("lunr-languages/lunr.en" ∉ mods)
    ∧ (mods = [] ↔ l = LangCode "en")
    ∧ (mods ≠ [] → head mods = Some "lunr-languages/lunr.stemmer.support")
    ∧ (∀ codes, l = LangList codes → last mods = Some "lunr-languages/lunr.multi").
Proof.
  destruct l as [code|codes]; simpl; intros Hjp.
  - unfold load_languages. simpl.
    destruct (String.eqb_spec code "en") as [->|Hen].
    { exists [], "". rewrite append_nil_r. repeat split; try done.
      intros Hin. by apply elem_of_nil in Hin. }
    assert (code ≠ "jp") as Hne by (intros ->; apply Hjp, list_elem_of_here).
    destruct (handleLangCode code) as [r|] eqn:Hcode; simpl.
    + exists ("lunr-languages/lunr.stemmer.support" :: r.1),
             (require_line "lunr-languages/lunr.stemmer.support" +:+ r.2).
      rewrite append_assoc. repeat split; try done.
      * intros Hin. apply elem_of_cons in Hin as [?|Hin]; [done|].
        apply Hen. by eapply handleLangCode_text.
      * intros [= ->]. done.
    + destruct (handleLangCode_Ok code Hne) as (? & ? & ? & _). congruence.
  - unfold load_languages. simpl.
    destruct (handleLangCodes_Ok (filter (λ code, code ≠ "en") codes)
                (["lunr-languages/lunr.stemmer.support"],
                 g +:+ require_line "lunr-languages/lunr.stemmer.support"))
      as (mods & text & -> & Hen).
    { intros Hin. apply Hjp. by apply list_elem_of_filter in Hin as [_ ?]. }
    simpl.
    exists ("lunr-languages/lunr.stemmer.support"
            :: mods ++ ["lunr-languages/lunr.multi"]),
           (require_line "lunr-languages/lunr.stemmer.support" +:+ text
            +:+ require_line "lunr-languages/lunr.multi").
    rewrite !append_assoc. repeat split; try done.
    + intros Hin. apply elem_of_cons in Hin as [?|Hin]; [done|].
      apply elem_of_app in Hin as [Hin|Hin].
      * apply Hen, list_elem_of_filter in Hin as [? _]. done.
      * by apply list_elem_of_singleton in Hin.
    + intros codes' _. by rewrite app_comm_cons, last_snoc.
Qed.

Lemma export_tokenizer_Ok (l : LanguageOption) (sep : option RegExp)
    (g text : string) :
  export_tokenizer l sep g = Ok text → ∃ rest, text = g +:+ rest.
Proof.
  unfold export_tokenizer.
  destruct (language_is l "zh"); [intros [= <-]; eauto|].
  destruct (language_is l "ja" || language_is l "th").
  { destruct sep; [discriminate | intros [= <-]; eauto]. }
  destruct sep; intros [= <-]; [|eauto].
  rewrite !append_assoc. eauto.
Qed.

Lemma segmenting_language_is (l : LanguageOption) :
  language_is l "ja" || language_is l "th" = true ↔ segmenting l.
Proof.
  unfold segmenting. destruct l as [code|codes]; simpl.
  - rewrite orb_true_iff, !String.eqb_eq. split; intros [?|?]; subst; auto;
      simplify_eq; auto.
  - split; [done | by intros [?|?]].
Qed.



Lemma constructor_Ok (o : MyOptions) (p : PluginInstance) :
  cmfcmfDocusaurusSearchLocal o = Ok p →
  ("jp" ∉ codesOf (normalizeLanguage (language o)))
  ∧ ∃ loaded text,
      load_languages (normalizeLanguage (language o)) (generated_head o) = Ok loaded
      ∧ export_tokenizer (normalizeLanguage (language o))
          (tokenizerSeparator (lunr o)) loaded.2 = Ok text
      ∧ lunr_modules p = loaded.1
      ∧ generated p = text +:+ "export const mylunr = lunr;" +:+ nl.
Proof.
  intros Hp. split.
  - intros Hjp. unfold cmfcmfDocusaurusSearchLocal in Hp.
    by rewrite load_languages_jp in Hp.
  - unfold cmfcmfDocusaurusSearchLocal in Hp.
    apply bind_Ok in Hp as (loaded & Hload & Hp).
    apply bind_Ok in Hp as (text & Htext & Hp). injection Hp as <-.
    by exists loaded, text.
Qed.

(** X10: The extension modules that a successful constructor registers on the
    build-side lunr: none exactly when the language is the string en (or
    the array of en alone); otherwise the stemmer support comes first; the
    multi-language module comes last whenever the language stays an array;
    and the module for en is never asked for. *)
Theorem constructor_modules (o : MyOptions) (p : PluginInstance) :
  cmfcmfDocusaurusSearchLocal o = Ok p →
  let l := normalizeLanguage (language o) in
  ("lunr-languages/lunr.en" ∉ lunr_modules p)
  ∧ (lunr_modules p = [] ↔ l = LangCode "en")
  ∧ (lunr_modules p ≠ [] →
     head (lunr_modules p) = Some "lunr-languages/lunr.stemmer.support")
  ∧ (∀ codes, l = LangList codes →
       last (lunr_modules p) = Some "lunr-languages/lunr.multi").
Proof.
  intros Hp l.
  destruct (constructor_Ok o p Hp) as (Hjp & loaded & text & Hload & _ & -> & _).
  fold l in Hjp, Hload.
  destruct (load_languages_Ok l (generated_head o) Hjp)
    as (mods & rest & Hload' & Hen & Hnil & Hhead & Hlast).
  rewrite Hload' in Hload. injection Hload as <-. simpl. done.
Qed.

Lemma constructor_modules_witness :
  ∃ p,
    cmfcmfDocusaurusSearchLocal (with_language (LangList ["en"; "ja"]) Site.defaults)
      = Ok p
    ∧ head (lunr_modules p) = Some "lunr-languages/lunr.stemmer.support"
    ∧ last (lunr_modules p) = Some "lunr-languages/lunr.multi".
Proof.
  eexists. split; [reflexivity|].
  edestruct (constructor_modules
               (with_language (LangList ["en"; "ja"]) Site.defaults))
    as (_ & _ & Hhead & Hlast); [reflexivity|].
  split; [by apply Hhead | by eapply Hlast].
Defined.

Lemma startsWith_app (s t p : string) :
  startsWith s p = true → startsWith (s +:+ t) p = true.
Proof.
  intros H. apply startsWith_spec in H as [rest ->].
  apply startsWith_spec. exists (rest +:+ t). apply append_assoc.
Qed.

(** X11: The module that a successful constructor generates begins with the
    text up to the [require] of lunr, of which the first lines are the
    notice not to edit the file, and it ends with the export of lunr as
    [mylunr]; the language modules and the tokenizer stand in between. *)
Theorem generated_shape (o : MyOptions) (p : PluginInstance) :
  cmfcmfDocusaurusSearchLocal o = Ok p →
  (∃ body, generated p
           = generated_head o +:+ body +:+ "export const mylunr = lunr;" +:+ nl)
  ∧ startsWith (generated p)
      ("// THIS FILE IS AUTOGENERATED" +:+ nl +:+ "// DO NOT EDIT THIS FILE!"
       +:+ nl +:+ nl) = true
  ∧ endsWith (generated p) ("export const mylunr = lunr;" +:+ nl) = true.
Proof.
  intros Hp.
  destruct (constructor_Ok o p Hp)
    as (Hjp & loaded & text & Hload & Htext & _ & Hgen).
  destruct (load_languages_Ok _ (generated_head o) Hjp) as (mods & rest & Hload' & _).
  rewrite Hload' in Hload. injection Hload as <-. simpl in Htext.
  apply export_tokenizer_Ok in Htext as [rest' ->].
  assert (generated p = generated_head o
                        +:+ (rest +:+ rest') +:+ "export const mylunr = lunr;" +:+ nl)
    as Hshape.
  { rewrite Hgen. by rewrite !append_assoc. }
  split; [eauto|]. split.
  - rewrite Hshape. apply startsWith_app.
    unfold generated_head. by destruct (style_none o).
  - rewrite Hgen. apply endsWith_app.
Qed.

Lemma generated_shape_witness :
  startsWith (generated Site.plugin)
    ("// THIS FILE IS AUTOGENERATED" +:+ nl +:+ "// DO NOT EDIT THIS FILE!"
     +:+ nl +:+ nl) = true.
Proof.
  apply (generated_shape Site.defaults Site.plugin). reflexivity.
Defined.

Lemma codesOf_normalizeLanguage (l : LanguageOption) :
  codesOf (normalizeLanguage l) = codesOf l.
Proof. by destruct l as [code|[|code [|code' codes]]]. Qed.

Lemma language_valid_codes (l : LanguageOption) :
  language_valid l = true → Forall (λ code, code ∈ languageSchema) (codesOf l).
Proof.
  destruct l as [code|codes]; simpl; intros H.
  - constructor; [|constructor]. by apply bool_decide_eq_true in H.
  - apply Forall_forall. intros code Hin.
    rewrite forallb_forall in H. apply list_elem_of_In, H in Hin.
    by apply bool_decide_eq_true in Hin.
Qed.

(** X12: For a language that the options schema accepts, the deprecation error
    cannot occur: the constructor either returns, or throws the separator
    error because a separator is set and the language is the string ja or
    th. *)
Theorem constructor_after_validation (o : MyOptions) :
  language_valid (language o) = true →
  let l := normalizeLanguage (language o) in
  let sep := tokenizerSeparator (lunr o) in
  (is_Some sep ∧ segmenting l
   → cmfcmfDocusaurusSearchLocal o = Throw SeparatorNotSupported)
  ∧ (¬ (is_Some sep ∧ segmenting l)
     → ∃ p, cmfcmfDocusaurusSearchLocal o = Ok p).
Proof.
  intros Hvalid l sep.
  assert ("jp" ∉ codesOf l) as Hjp.
  { unfold l. rewrite codesOf_normalizeLanguage. intros Hin.
    apply language_valid_codes in Hvalid. rewrite Forall_forall in Hvalid.
    apply Hvalid in Hin. vm_compute in Hin.
    repeat (apply elem_of_cons in Hin as [?|Hin]; [discriminate|]).
    by apply elem_of_nil in Hin. }
  unfold cmfcmfDocusaurusSearchLocal. fold l sep.
  destruct (load_languages_Ok l (generated_head o) Hjp) as (mods & text & -> & _).
  simpl. unfold export_tokenizer. split.
  - intros [[r Hsep] Hseg]. apply segmenting_language_is in Hseg as Hseg'.
    rewrite Hseg', Hsep. by destruct Hseg as [-> | ->].
  - intros Hnot. destruct (language_is l "zh"); [simpl; eauto|].
    destruct (language_is l "ja" || language_is l "th") eqn:Hseg; [|simpl; eauto].
    apply segmenting_language_is in Hseg.
    destruct sep eqn:Hsep; [|simpl; eauto]. exfalso. apply Hnot. eauto.
Qed.

Lemma constructor_after_validation_witness :
  ∃ p, cmfcmfDocusaurusSearchLocal
         (with_language (LangList ["fr"; "th"])
            (withSeparator Site.defaults commaSeparator)) = Ok p.
Proof.
  apply (constructor_after_validation
           (with_language (LangList ["fr"; "th"])
              (withSeparator Site.defaults commaSeparator))); [reflexivity|].
  by intros [_ [?|?]].
Defined.

(** ** The tokenizer for zh, token by token *)

Lemma split_runs_concat (sep : codeunit → bool) (cur : list codeunit)
    (in_run : bool) (s : list codeunit) :
  concat (split_runs sep cur in_run s) = rev cur ++ filter (λ c, sep c = false) s.
Proof.
  revert cur in_run. induction s as [|c s IH]; intros cur in_run; [done|].
  rewrite filter_cons.
  change (split_runs sep cur in_run (c :: s))
    with (if sep c
          then if in_run then split_runs sep cur true s
               else rev cur :: split_runs sep [] true s
          else split_runs sep (c :: cur) false s).
  destruct (sep c) eqn:Hc.
  - rewrite decide_False by done.
    destruct in_run; [apply IH|]. simpl. by rewrite IH.
  - rewrite decide_True by done. rewrite IH. simpl.
    by rewrite <- app_assoc.
Qed.

Lemma concat_filter_nonempty {A} (l : list (list A)) :
  concat (filter (λ x, x ≠ []) l) = concat l.
Proof.
  induction l as [|x l IH]; [done|]. destruct x as [|a x].
  - rewrite filter_cons_False by (intros H; by apply H). exact IH.
  - rewrite filter_cons_True by done. simpl. by rewrite IH.
Qed.

Lemma filter_trimStart (s : list codeunit) :
  filter is_text (trimStart s) = filter is_text s.
Proof.
  induction s as [|c s IH]; [done|].
  change (trimStart (c :: s)) with (if isWhiteSpace c then trimStart s else c :: s).
  destruct (isWhiteSpace c) eqn:Hc; [|done].
  rewrite IH, filter_cons_False; [done|].
  unfold is_text, isSeparatorUnit. by rewrite Hc.
Qed.

Lemma filter_rev_text (s : list codeunit) :
  filter is_text (rev s) = rev (filter is_text s).
Proof.
  induction s as [|c s IH]; [done|]. simpl. rewrite filter_app, IH.
  destruct (decide (is_text c)).
  - by rewrite !filter_cons_True, filter_nil by done.
  - rewrite !filter_cons_False, filter_nil by done. by rewrite app_nil_r.
Qed.

Lemma filter_trim (s : list codeunit) :
  filter is_text (trim s) = filter is_text s.
Proof.
  unfold trim, trimEnd.
  by rewrite filter_rev_text, filter_trimStart, filter_rev_text, rev_involutive,
    filter_trimStart.
Qed.

Lemma isSeparatorUnit_toLowerCaseUnit (c : codeunit) :
  isSeparatorUnit (toLowerCaseUnit c) = isSeparatorUnit c.
Proof.
  unfold isSeparatorUnit. rewrite isWhiteSpace_toLowerCaseUnit. f_equal.
  unfold toLowerCaseUnit.
  repeat match goal with
         | |- context [if ?cond then _ else _] => destruct cond eqn:?
         end; try reflexivity;
    repeat match goal with
           | H : _ && _ = true |- _ => apply andb_true_iff in H as [? ?]
           | H : (_ <=? _)%N = true |- _ => apply N.leb_le in H
           end;
    (transitivity false; [|symmetry]; apply N.eqb_neq; lia).
Qed.

Lemma tokenize_zh_concat (input : jsstring) :
  concat (tokenize_zh defaultSeparator input)
  = filter is_text (toLowerCase input).
Proof.
  unfold tokenize_zh, toLowerCase, jsstring in *.
  rewrite concat_filter_nonempty. simpl. fold (toLowerCase input).
  fold (toLowerCase (trim input)).
  rewrite split_runs_concat. simpl.
  by rewrite <- trim_toLowerCase, filter_trim.
Qed.


(** X14: The tokenizer yields no token exactly for the inputs made of whitespace
    and hyphens only, the empty input among them; it never yields an empty
    token in their place. *)
Theorem tokenize_zh_nothing (input : jsstring) :
  tokenize_zh defaultSeparator input = []
  ↔ Forall (λ c, isSeparatorUnit c = true) input.
Proof.
  assert (filter is_text (toLowerCase input) = []
          ↔ Forall (λ c, isSeparatorUnit c = true) input) as Htext.
  { unfold toLowerCase, jsstring in *. induction input as [|c input IH].
    { split; [constructor | done]. }
    change (map toLowerCaseUnit (c :: input))
      with (toLowerCaseUnit c :: map toLowerCaseUnit input).
    rewrite Forall_cons, <- IH.
    destruct (isSeparatorUnit c) eqn:Hc.
    - rewrite filter_cons_False
        by (unfold is_text; rewrite isSeparatorUnit_toLowerCaseUnit; congruence).
      tauto.
    - rewrite filter_cons_True
        by (unfold is_text; by rewrite isSeparatorUnit_toLowerCaseUnit).
      split; [done | by intros [? _]]. }
  rewrite <- Htext, <- tokenize_zh_concat. split; [by intros ->|].
  intros Hconcat.
  destruct (tokenize_zh defaultSeparator input) as [|token tokens] eqn:Htokens;
    [done|].
  assert (token ∈ tokenize_zh defaultSeparator input) as Hin.
  { rewrite Htokens. apply list_elem_of_here. }
  unfold tokenize_zh in Hin. apply list_elem_of_filter in Hin as [Hne _].
  simpl in Hconcat. by apply app_eq_nil in Hconcat as [? _].
Qed.





(** ** Reads that fail, and what the documents hold *)

Section GatheringMore.

Variable path_join : list string → string.
Variable readFile : string → option string.
Variable html2text : string → ContentType → string → Parsed.t.
Variable getDocusaurusTag : string → string.

Local Abbreviation complete_reads :=
  (completeReads readFile html2text getDocusaurusTag).
Local Abbreviation gather_pages :=
  (gatherPages readFile html2text getDocusaurusTag).
Local Abbreviation gather_documents :=
  (gatherDocuments readFile html2text getDocusaurusTag).
Local Abbreviation page_of := (pageOf readFile html2text getDocusaurusTag).
Local Abbreviation unnumbered :=
  (unnumberedDocuments readFile html2text getDocusaurusTag).
Local Abbreviation post_build :=
  (postBuild path_join readFile html2text getDocusaurusTag).

Lemma completeReads_fails (data : list Entry.t) (completion : list nat)
    (g : Gathering) :
  (∃ i e, i ∈ completion ∧ data !! i = Some e ∧ readFile (Entry.file e) = None) →
  ∃ e, e ∈ data ∧ readFile (Entry.file e) = None
       ∧ complete_reads data completion g = Throw (ReadFailed (Entry.file e)).
Proof.
  revert g. induction completion as [|j rest IH]; intros g (i & e & Hi & He & Hread).
  { by apply elem_of_nil in Hi. }
  simpl. unfold completeRead at 1.
  destruct (data !! j) as [e'|] eqn:He'.
  - destruct (readFile (Entry.file e')) as [html|] eqn:Hread'.
    + simpl. apply IH. exists i, e. split; [|done].
      apply elem_of_cons in Hi as [->|Hi]; [|done]. congruence.
    + exists e'. split; [by eapply list_elem_of_lookup_2|]. done.
  - simpl. apply IH. exists i, e. split; [|done].
    apply elem_of_cons in Hi as [->|Hi]; [|done]. congruence.
Qed.

(** X16: A page file that cannot be read is fatal: whatever the order in which
    the reads complete, gathering throws the read error of an unreadable
    file and returns no documents. *)
Theorem gatherDocuments_read_failure (data : list Entry.t)
    (completion : list nat) :
  completion ≡ₚ seq 0 (length data) →
  Exists (λ e, readFile (Entry.file e) = None) data →
  ∃ e, e ∈ data ∧ readFile (Entry.file e) = None
       ∧ gather_documents data completion = Throw (ReadFailed (Entry.file e)).
Proof.
  intros Hperm Hbad. apply Exists_exists in Hbad as (e & He & Hread).
  apply list_elem_of_lookup in He as [i Hi].
  destruct (completeReads_fails data completion
              {| nextDocId := 1; fulfilled := replicate (length data) None |})
    as (e' & He' & Hread' & Hrun).
  { exists i, e. split; [|done]. rewrite Hperm. apply elem_of_seq.
    apply lookup_lt_Some in Hi. lia. }
  exists e'. split; [done|]. split; [done|].
  unfold gatherDocuments, gatherPages. by rewrite Hrun.
Qed.

Lemma numberSections_withId (e : Entry.t) (parsed : Parsed.t) (tag : string)
    (next : nat) (sections : list PageSection) :
  map (withId 0) (numberSections (makeDocument e parsed tag) next sections).1
  = map (makeDocument e parsed tag 0) sections.
Proof.
  revert next. induction sections as [|s sections IH]; intros next; [done|].
  simpl. specialize (IH (S next)).
  destruct (numberSections (makeDocument e parsed tag) (S next) sections).
  simpl in *. by rewrite IH.
Qed.

Lemma page_of_unnumbered (e : Entry.t) (group : list Doc.t) :
  page_of e group → map (withId 0) group = unnumbered e.
Proof.
  intros (html & next & Hread & ->). unfold unnumberedDocuments, pageDocuments.
  rewrite Hread. apply numberSections_withId.
Qed.

(** X17: Apart from the ids, the gathered documents do not depend on the order
    in which the reads complete: they are the sections of the pages in
    route order and, within a page, in section order, each with the title,
    routes, tag, categories and type of its page. *)
Theorem gatherDocuments_content (data : list Entry.t) (completion : list nat) :
  completion ≡ₚ seq 0 (length data) →
  Forall (readable readFile) data →
  ∃ documents,
    gather_documents data completion = Ok documents
    ∧ map (withId 0) documents = concat (map unnumbered data)
    ∧ Forall (λ d, ∃ e, e ∈ data
                        ∧ Doc.pageRoute d = Entry.url e
                        ∧ Doc.type d = Entry.type e
                        ∧ startsWith (Doc.sectionRoute d) (Doc.pageRoute d) = true)
             documents.
Proof.
  intros Hperm Hread.
  destruct (gatherPages_permutation readFile html2text getDocusaurusTag
              data completion Hperm Hread) as (pages & Hrun & Hpages & _).
  exists (concat pages). split; [|split].
  - unfold gatherDocuments. by rewrite Hrun.
  - clear Hrun Hperm Hread. induction Hpages as [|e group data pages He _ IH].
    { done. }
    simpl. rewrite map_app, IH. f_equal. by apply page_of_unnumbered.
  - apply Forall_forall. intros d Hd.
    apply list_elem_of_In, in_concat in Hd as (group & Hgroup & Hd).
    apply list_elem_of_In, list_elem_of_lookup in Hgroup as [i Hi].
    destruct (Forall2_lookup_r _ _ _ _ _ Hpages Hi) as (e & He & Hpage).
    exists e. split; [by eapply list_elem_of_lookup_2|].
    apply page_of_unnumbered in Hpage.
    assert (withId 0 d ∈ unnumbered e) as Hin.
    { rewrite <- Hpage. apply list_elem_of_In, in_map. exact Hd. }
    unfold unnumberedDocuments in Hin.
    destruct (readFile (Entry.file e)); [|by apply elem_of_nil in Hin].
    apply list_elem_of_In, in_map_iff in Hin as (sec & Hs & _).
    pose proof (f_equal Doc.pageRoute Hs) as Hroute.
    pose proof (f_equal Doc.sectionRoute Hs) as Hsection.
    pose proof (f_equal Doc.type Hs) as Htype. simpl in *.
    rewrite <- Hroute, <- Hsection, <- Htype. repeat split.
    apply startsWith_spec. eauto.
Qed.

End GatheringMore.

Lemma gatherDocuments_read_failure_witness :
  gatherDocuments Site.readFile Site.html2text Site.getDocusaurusTag
    Site2.brokenData [1; 0]
  = Throw (ReadFailed "build/docs/missing/index.html").
Proof.
  destruct (gatherDocuments_read_failure Site.readFile Site.html2text
              Site.getDocusaurusTag Site2.brokenData [1; 0])
    as (e & He & Hread & ->).
  - apply perm_swap.
  - right. by left.
  - f_equal. f_equal.
    apply elem_of_cons in He as [->|He]; [discriminate|].
    apply list_elem_of_singleton in He as ->. done.
Defined.

Lemma gatherDocuments_content_witness :
  ∃ documents,
    gatherDocuments Site.readFile Site.html2text Site.getDocusaurusTag
      Site.data [1; 0; 2] = Ok documents
    ∧ map (withId 0) documents
      = concat (map (unnumberedDocuments Site.readFile Site.html2text
                       Site.getDocusaurusTag) Site.data).
Proof.
  destruct (gatherDocuments_content Site.readFile Site.html2text
              Site.getDocusaurusTag Site.data [1; 0; 2]
              site_completion site_readable)
    as (documents & Hrun & Hcontent & _).
  by exists documents.
Defined.

(** ** The artifacts of a run *)




(** X19: The fields of the index: title, content and tags always; the field for
    ancestor categories exactly when the indexing depth is positive.  With
    the depth 0 no document is given a text for it, and with any depth the
    index is given one record per document, under the decimal form of its
    id. *)
Theorem buildIndex_fields (p : PluginInstance) (documents : list Doc.t) :
  let n := indexDocSidebarParentCategories (plugin_options p) in
  let i := buildIndex p documents in
  (∃ more, Lunr.fields i = ["title"; "content"; "tags"] ++ more)
  ∧ ("sidebarParentCategories" ∈ Lunr.fields i ↔ 0 < n)
  ∧ (n = 0 → Forall (λ a, Lunr.sidebarParentCategories a = None) (Lunr.added i))
  ∧ Lunr.refs i = map (λ d, pretty (Doc.id d)) documents
  ∧ (NoDup (map Doc.id documents) → NoDup (Lunr.refs i)).
Proof.
  intros n i. unfold i, buildIndex. simpl. fold n.
  split; [eauto|]. split; [|split; [|split]].
  - destruct (Nat.ltb_spec 0 n) as [Hn|Hn].
    + split; [done|]. intros _. set_solver.
    + split; [|lia]. intros Hin.
      repeat (apply elem_of_cons in Hin as [?|Hin]; [discriminate|]).
      by apply elem_of_nil in Hin.
  - intros ->. apply Forall_forall. intros a Ha.
    apply list_elem_of_In, in_map_iff in Ha as (d & <- & _). simpl.
    by destruct (Doc.docSidebarParentCategories d).
  - unfold Lunr.refs. simpl. by rewrite map_map.
  - intros Hnodup. unfold Lunr.refs. simpl. rewrite map_map.
    change (NoDup ((pretty ∘ Doc.id) <$> documents)).
    rewrite list_fmap_compose. apply NoDup_fmap_2; [apply _ | exact Hnodup].
Qed.

Lemma buildIndex_fields_witness :
  NoDup (Lunr.refs (buildIndex Site.plugin [Site.docEn; Site.docFr])).
Proof.
  apply (buildIndex_fields Site.plugin [Site.docEn; Site.docFr]).
  apply NoDup_cons. split; [|apply NoDup_singleton].
  intros Hin. by apply list_elem_of_singleton in Hin.
Defined.

Lemma join_snoc (sep : string) (l : list string) (x : string) :
  l ≠ [] → join sep (l ++ [x]) = join sep l +:+ sep +:+ x.
Proof.
  induction l as [|y l IH]; [done|]. intros _.
  destruct l as [|z l]; [reflexivity|].
  change (join sep ((y :: z :: l) ++ [x]))
    with (y +:+ sep +:+ join sep ((z :: l) ++ [x])).
  rewrite IH by done.
  change (join sep (y :: z :: l)) with (y +:+ sep +:+ join sep (z :: l)).
  by rewrite !append_assoc.
Qed.

Lemma summarize_pageTitle (o : MyOptions) (d : Doc.t) :
  Summary.pageTitle (summarize o d) =
    match Doc.docSidebarParentCategories d with
    | Some categories =>
        if includeParentCategoriesInPageTitle o && (0 <? length categories)
        then join " > " (categories ++ [Doc.pageTitle d])
        else Doc.pageTitle d
    | None => Doc.pageTitle d
    end.
Proof. reflexivity. Qed.

(** X20: The title that an artifact lists for a document is the page title,
    preceded by the ancestor categories, root first and joined by [ > ],
    exactly when that option is on and the document has at least one
    category; in every case the title ends with the page title, and the
    id, section title, section route and type are the document's own. *)
Theorem summarize_title (o : MyOptions) (d : Doc.t) :
  (∀ categories,
     includeParentCategoriesInPageTitle o = true →
     Doc.docSidebarParentCategories d = Some categories →
     categories ≠ [] →
     Summary.pageTitle (summarize o d)
     = join " > " categories +:+ " > " +:+ Doc.pageTitle d)
  ∧ (includeParentCategoriesInPageTitle o = false
     ∨ Doc.docSidebarParentCategories d = None
     ∨ Doc.docSidebarParentCategories d = Some [] →
     Summary.pageTitle (summarize o d) = Doc.pageTitle d)
  ∧ endsWith (Summary.pageTitle (summarize o d)) (Doc.pageTitle d) = true
  ∧ Summary.id (summarize o d) = Doc.id d
  ∧ Summary.sectionRoute (summarize o d) = Doc.sectionRoute d.
Proof.
  assert (∀ categories,
            includeParentCategoriesInPageTitle o = true →
            Doc.docSidebarParentCategories d = Some categories →
            categories ≠ [] →
            Summary.pageTitle (summarize o d)
            = join " > " categories +:+ " > " +:+ Doc.pageTitle d) as Hprefix.
  { intros categories Hon Hcat Hne. rewrite summarize_pageTitle, Hcat, Hon.
    destruct categories as [|c categories]; [done|].
    change (true && (0 <? length (c :: categories))) with true. cbv iota.
    by rewrite join_snoc. }
  assert (includeParentCategoriesInPageTitle o = false
          ∨ Doc.docSidebarParentCategories d = None
          ∨ Doc.docSidebarParentCategories d = Some [] →
          Summary.pageTitle (summarize o d) = Doc.pageTitle d) as Hplain.
  { rewrite summarize_pageTitle. intros [-> | [-> | ->]]; [|done|].
    - by destruct (Doc.docSidebarParentCategories d).
    - simpl. by rewrite andb_false_r. }
  split; [done|]. split; [done|]. split; [|done].
  destruct (includeParentCategoriesInPageTitle o) eqn:Hon;
    [|rewrite Hplain by auto; apply endsWith_refl].
  destruct (Doc.docSidebarParentCategories d) as [[|c categories]|] eqn:Hcat;
    [rewrite Hplain by auto; apply endsWith_refl | |
     rewrite Hplain by auto; apply endsWith_refl].
  rewrite (Hprefix (c :: categories)) by done.
  rewrite <- append_assoc. apply endsWith_app.
Qed.

Lemma summarize_title_witness :
  Summary.pageTitle
    (summarize
       {| indexDocs := true; indexDocSidebarParentCategories := 0;
          includeParentCategoriesInPageTitle := true; indexBlog := true;
          indexPages := false; language := LangCode "en"; style_none := false;
          maxSearchResults := 8; filterByPathName := false; subPath := (-1)%Z;
          lunr := Site.lunrOptions |} Site2.nestedDoc)
  = "Guides > Setup > Install".
Proof.
  refine (proj1 (summarize_title _ Site2.nestedDoc) ["Guides"; "Setup"] _ _ _);
    done.
Defined.

(** ** The first version *)

Lemma slice_from_1_cons (s : string) :
  startsWith s "/" = true → "/" +:+ slice_from_1 s = s.
Proof.
  intros H. apply startsWith_spec in H as [rest ->]. reflexivity.
Qed.

(** X21: The constructor of the first version wants both base paths, given or
    defaulted to [/blog] and [/docs], to start with a slash: it throws for
    the blog path first, then for the docs path, and otherwise keeps the
    paths without that slash; pages are off and blog and docs are on unless
    the options say otherwise. *)
Theorem legacy_settings (options : Legacy.Options) :
  let blogBasePath := default "/blog" (Legacy.blogBasePath options) in
  let docsBasePath := default "/docs" (Legacy.docsBasePath options) in
  (startsWith blogBasePath "/" = false →
   Legacy.settings options = Throw (BasePathWithoutSlash "blogBasePath" blogBasePath))
  ∧ (startsWith blogBasePath "/" = true → startsWith docsBasePath "/" = false →
     Legacy.settings options = Throw (BasePathWithoutSlash "docsBasePath" docsBasePath))
  ∧ (startsWith blogBasePath "/" = true → startsWith docsBasePath "/" = true →
     ∃ s, Legacy.settings options = Ok s
          ∧ "/" +:+ Legacy.blogPath s = blogBasePath
          ∧ "/" +:+ Legacy.docsPath s = docsBasePath
          ∧ Legacy.pages s = default false (Legacy.indexPages options)
          ∧ Legacy.blog_on s = default true (Legacy.indexBlog options)
          ∧ Legacy.docs_on s = default true (Legacy.indexDocs options)).
Proof.
  intros blogBasePath docsBasePath. unfold Legacy.settings.
  fold blogBasePath docsBasePath. split; [|split].
  - by intros ->.
  - by intros -> ->.
  - intros Hblog Hdocs. rewrite Hblog, Hdocs. eexists. split; [reflexivity|].
    simpl. by rewrite !slice_from_1_cons.
Qed.

Lemma legacy_settings_witness :
  Legacy.settings
    {| Legacy.blogBasePath := Some "news"; Legacy.docsBasePath := None;
       Legacy.indexPages := None; Legacy.indexBlog := None;
       Legacy.indexDocs := None |}
  = Throw (BasePathWithoutSlash "blogBasePath" "news").
Proof.
  refine (proj1 (legacy_settings _) _). reflexivity.
Defined.

(** X22: The filter of the first version keeps a route at most once and tries
    blog before docs before pages, each by a plain prefix test.  A kept blog
    route is neither the blog path nor its tag listing; a kept docs route
    starts with the docs path and was not taken by the blog test; a kept
    page was taken by neither.  The error page is never kept, and an address
    outside the base URL raises a [ReferenceError]. *)
Theorem legacy_classify_kept (s : Legacy.Settings) (baseUrl u : string) :
  (startsWith u baseUrl = false →
   Legacy.classify s baseUrl u = Throw (ReferenceError "route"))
  ∧ ∀ l, Legacy.classify s baseUrl u = Ok l →
      let r := substring_from (String.length baseUrl) u in
      let blogged := Legacy.blog_on s && startsWith r (Legacy.blogPath s) in
      let documented := Legacy.docs_on s && startsWith r (Legacy.docsPath s) in
      l = [] ∨
      ∃ t, l = [{| route := r; url := u; type := t |}]
           ∧ r ≠ "404.html"
           ∧ match t with
             | Blog =>
                 blogged = true
                 ∧ r ≠ Legacy.blogPath s
                 ∧ r ≠ Legacy.blogPath s +:+ "/tags"
                 ∧ startsWith r (Legacy.blogPath s +:+ "/tags/") = false
             | Docs => blogged = false ∧ documented = true
             | Page =>
                 blogged = false ∧ documented = false ∧ Legacy.pages s = true
             end.
Proof.
  unfold Legacy.classify. split; [by intros ->|].
  intros l H. cbv zeta.
  destruct (startsWith u baseUrl); [|discriminate]. simpl in H.
  set (r := substring_from (String.length baseUrl) u) in *.
  set (blogged := Legacy.blog_on s && startsWith r (Legacy.blogPath s)) in *.
  set (documented := Legacy.docs_on s && startsWith r (Legacy.docsPath s)) in *.
  destruct (String.eqb_spec r "404.html") as [?|H404]; [injection H as <-; by left|].
  destruct blogged.
  - destruct (String.eqb_spec r (Legacy.blogPath s)) as [?|Hbase];
      [injection H as <-; by left|].
    destruct (startsWith r (Legacy.blogPath s +:+ "/tags/")) eqn:Htags;
      [injection H as <-; by left|].
    destruct (String.eqb_spec r (Legacy.blogPath s +:+ "/tags")) as [?|Hlist];
      [injection H as <-; by left|].
    simpl in H. injection H as <-. right. exists Blog. by repeat split.
  - destruct documented.
    + injection H as <-. right. exists Docs. by repeat split.
    + destruct (Legacy.pages s) eqn:Hpages; injection H as <-; [|by left].
      right. exists Page. by repeat split.
Qed.

Lemma legacy_classify_kept_witness :
  Legacy.classify
    {| Legacy.blogPath := "blog"; Legacy.docsPath := "docs"; Legacy.pages := false;
       Legacy.blog_on := true; Legacy.docs_on := true |} "/" "docs/intro"
  = Throw (ReferenceError "route").
Proof.
  refine (proj1 (legacy_classify_kept _ "/" "docs/intro") _). reflexivity.
Defined.

Lemma legacy_classify_url (s : Legacy.Settings) (baseUrl u : string)
    (l : list Classified) :
  Legacy.classify s baseUrl u = Ok l →
  l = [] ∨ ∃ r t, l = [{| route := r; url := u; type := t |}].
Proof.
  unfold Legacy.classify. intros H.
  repeat match type of H with
         | (if ?cond then _ else _) = _ => destruct cond
         end;
    first [discriminate | injection H as <-]; eauto.
Qed.

Lemma legacy_reduce {A B} (mapper : A → Result (list B)) (acc : list B)
    (array : list A) :
  LegacyFlatMap.reduce mapper acc array
  = (let! mapped := mapM mapper array in Ok (acc ++ concat mapped)).
Proof.
  revert acc. induction array as [|element rest IH]; intros acc; simpl.
  - by rewrite app_nil_r.
  - destruct (mapper element) as [mapped|e]; [|done]. simpl. rewrite IH.
    destruct (mapM mapper rest) as [more|e]; [|done]. simpl.
    by rewrite app_assoc.
Qed.

(** X23: The hand-written [flatMap] of the first version does what
    [Array.prototype.flatMap] does for it in the current version: it maps
    the elements in order and joins the arrays that the mapper returns, and
    it fails when the mapper fails on an element.  The routes it keeps are
    therefore a sublist of the produced routes. *)
Theorem legacy_flatMap (s : Legacy.Settings) (baseUrl : string)
    (routesPaths : list string) :
  (∀ {A B} (mapper : A → Result (list B)) (array : list A),
     LegacyFlatMap.flatMap array mapper
     = (let! mapped := mapM mapper array in Ok (concat mapped)))
  ∧ ∀ l, LegacyFlatMap.classifyAll s baseUrl routesPaths = Ok l →
         sublist (map url l) routesPaths.
Proof.
  assert (∀ {A B} (mapper : A → Result (list B)) (array : list A),
            LegacyFlatMap.flatMap array mapper
            = (let! mapped := mapM mapper array in Ok (concat mapped))) as Hflat.
  { intros A B mapper array. unfold LegacyFlatMap.flatMap.
    by rewrite legacy_reduce. }
  split; [exact Hflat|].
  intros l. unfold LegacyFlatMap.classifyAll. rewrite Hflat.
  intros H. apply bind_Ok in H as (rs & Hrs & H). injection H as <-.
  apply mapM_Ok in Hrs.
  induction Hrs as [|u r us rs Hu _ IH]; simpl; [constructor|].
  destruct (legacy_classify_url s baseUrl u r Hu) as [->|(r' & t & ->)];
    simpl; [by apply sublist_cons | by apply sublist_skip].
Qed.

Lemma legacy_flatMap_witness :
  sublist
    (map url [{| route := "docs/intro"; url := "/docs/intro"; type := Docs |}])
    ["/404.html"; "/docs/intro"; "/about"].
Proof.
  apply (proj2 (legacy_flatMap
                  {| Legacy.blogPath := "blog"; Legacy.docsPath := "docs";
                     Legacy.pages := false; Legacy.blog_on := true;
                     Legacy.docs_on := true |} "/"
                  ["/404.html"; "/docs/intro"; "/about"])).
  reflexivity.
Defined.

(** ** The translations of the theme *)

Section TranslationsProperties.

Variable Intl_Locale : option (string → Translations.IntlLocale).
Variable translationsDir : string.
Variable path_join : list string → string.
Variable existsSync : string → bool.
Variable readFile : string → option string.
Variable Messages : Type.
Variable JSON_parse : string → option Messages.
Variable no_messages : Messages.

Local Abbreviation locales_to_try :=
  (Translations.codeTranslationLocalesToTry Intl_Locale).
Local Abbreviation path_of :=
  (Translations.translationPath translationsDir path_join).
Local Abbreviation load :=
  (Translations.loadTranslation readFile Messages JSON_parse).
Local Abbreviation first_translation :=
  (Translations.firstTranslation translationsDir path_join existsSync readFile
     Messages JSON_parse no_messages).
Local Abbreviation get_messages :=
  (Translations.getDefaultCodeTranslationMessages Intl_Locale translationsDir
     path_join existsSync readFile Messages JSON_parse no_messages).

Lemma locales_to_try_head (locale : string) :
  ∃ fallbacks, locales_to_try locale = locale :: fallbacks
               ∧ length fallbacks ≤ 1.
Proof.
  unfold Translations.codeTranslationLocalesToTry.
  destruct Intl_Locale as [new_Locale|]; [|exists []; split; [done | simpl; lia]].
  destruct (String.eqb _ locale); eexists; (split; [reflexivity | simpl; lia]).
Qed.

Lemma firstTranslation_none (locales : list string) :
  Forall (λ l, existsSync (path_of l) = false) locales →
  first_translation locales = Translations.Returned no_messages.
Proof. induction 1 as [|l locales Hl _ IH]; simpl; [done|]. by rewrite Hl. Qed.

Lemma firstTranslation_rejected (locales : list string) (path : string) :
  first_translation locales = Translations.ReadRejected path
  ∨ first_translation locales = Translations.ParseRejected path →
  existsSync path = true
  ∧ ∃ l, l ∈ locales ∧ path = path_of l.
Proof.
  induction locales as [|l locales IH]; simpl.
  { by intros [?|?]. }
  destruct (existsSync (path_of l)) eqn:Hl.
  - unfold Translations.loadTranslation.
    destruct (readFile (path_of l)) as [text|].
    + destruct (JSON_parse text); intros [H|H]; try discriminate.
      injection H as <-. split; [done|]. exists l. split; [|done].
      apply list_elem_of_here.
    + intros [H|H]; [|discriminate]. injection H as <-. split; [done|].
      exists l. split; [|done]. apply list_elem_of_here.
  - intros H. destruct (IH H) as (Hpath & l' & Hl' & ->). split; [done|].
    exists l'. split; [|done]. by apply list_elem_of_further.
Qed.

(** X24: The messages of the theme come from the translation file of the site's
    own locale whenever that file exists, whatever the fallback locale is;
    the fallback file is looked at only when the own file is missing.  When
    none of the at most two candidate files exists the result is the empty
    object, not an error; a rejection names a file that does exist. *)
Theorem translations_own_locale_first (locale : string) :
  (existsSync (path_of locale) = true →
   get_messages locale = load (path_of locale))
  ∧ (Forall (λ l, existsSync (path_of l) = false) (locales_to_try locale) →
     get_messages locale = Translations.Returned no_messages)
  ∧ (∀ path,
       get_messages locale = Translations.ReadRejected path
       ∨ get_messages locale = Translations.ParseRejected path →
       existsSync path = true)
  ∧ head (locales_to_try locale) = Some locale
  ∧ length (locales_to_try locale) ≤ 2.
Proof.
  unfold Translations.getDefaultCodeTranslationMessages.
  destruct (locales_to_try_head locale) as (fallbacks & Hlocales & Hlen).
  split; [|split; [|split; [|split]]].
  - intros Hown. rewrite Hlocales. simpl. by rewrite Hown.
  - apply firstTranslation_none.
  - intros path H. by apply firstTranslation_rejected in H as [? _].
  - by rewrite Hlocales.
  - rewrite Hlocales. simpl. lia.
Qed.

End TranslationsProperties.

Lemma translations_own_locale_first_witness :
  Translations.getDefaultCodeTranslationMessages (Some Site2.new_Locale)
    "codeTranslations" Site.path_join Site2.existsSync Site2.readFile
    (list (string * string)) Site2.JSON_parse [] "de"
  = Translations.Returned
      [("cmfcmf/d-s-l.searchBar.placeholder", "codeTranslations/de.json")].
Proof.
  refine (proj1 (translations_own_locale_first (Some Site2.new_Locale)
                   "codeTranslations" Site.path_join Site2.existsSync
                   Site2.readFile (list (string * string)) Site2.JSON_parse []
                   "de") _).
  reflexivity.
Defined.

(** ** Prefixes along a path, and the routes that are kept *)

(** X25: A route that is accepted for a prefix continued by a slash and more is
    accepted for the prefix itself: what lies under the tag pages or the
    debug pages of an instance lies under its base path. *)
Theorem urlMatchesPrefix_nested (r p q : string) :
  startsWith p "/" = false →
  endsWith p "/" = false →
  urlMatchesPrefix r (p +:+ "/" +:+ q) = Ok true →
  urlMatchesPrefix r p = Ok true.
Proof.
  intros Hstart Hend H. unfold urlMatchesPrefix in *. rewrite Hstart, Hend.
  destruct (startsWith (p +:+ "/" +:+ q) "/"); [discriminate|].
  destruct (endsWith (p +:+ "/" +:+ q) "/"); [discriminate|].
  injection H as H. f_equal.
  assert (startsWith r (p +:+ "/") = true) as ->; [|by rewrite orb_true_r].
  apply startsWith_spec.
  apply orb_true_iff in H as [H|H]; [apply orb_true_iff in H as [H|H]|].
  - apply String.eqb_eq in H. destruct p; discriminate.
  - apply String.eqb_eq in H as ->. exists q. by rewrite append_assoc.
  - apply startsWith_spec in H as [rest ->]. exists (q +:+ "/" +:+ rest).
    by rewrite !append_assoc.
Qed.

Lemma urlMatchesPrefix_nested_witness :
  urlMatchesPrefix "docs/tags/api" "docs" = Ok true.
Proof.
  apply (urlMatchesPrefix_nested "docs/tags/api" "docs" "tags"); reflexivity.
Defined.

Lemma for_of_first {P A} (body : P → Result (Exit A)) (before after : list P)
    (p : P) (a : A) :
  Forall (λ q, body q = Ok Next) before →
  body p = Ok (Return a) →
  for_of body (before ++ p :: after) = Ok (Return a).
Proof.
  intros Hbefore Hp. induction Hbefore as [|q before Hq _ IH]; simpl.
  - by rewrite Hp.
  - by rewrite Hq.
Qed.

Lemma docsBody_outside (r u : string) (q : LoadedPlugin) :
  outside r (basePathOf q) → docsBody r u q = Ok Next.
Proof. unfold outside, docsBody. by intros ->. Qed.

Lemma blogBody_outside (r u : string) (q : LoadedPlugin) :
  outside r (basePathOf q) → blogBody r u q = Ok Next.
Proof. unfold outside, blogBody. by intros ->. Qed.

Lemma pagesBody_outside (r u : string) (q : LoadedPlugin) :
  outside r (basePathOf q) → pagesBody r u q = Ok Next.
Proof. unfold outside, pagesBody. by intros ->. Qed.

Lemma loop_first (body : LoadedPlugin → Result (Exit (list Classified)))
    (r : string) (ps : list LoadedPlugin) (p : LoadedPlugin)
    (l : list Classified) :
  (∀ q, outside r (basePathOf q) → body q = Ok Next) →
  first_match r ps p →
  body p = Ok (Return l) →
  for_of body ps = Ok (Return l).
Proof.
  intros Hout (before & after & -> & Hbefore & _) Hp.
  apply for_of_first; [|done].
  unfold no_match in Hbefore. eapply Forall_impl; [exact Hbefore | auto].
Qed.

Lemma loop_none (body : LoadedPlugin → Result (Exit (list Classified)))
    (r : string) (ps : list LoadedPlugin) :
  (∀ q, outside r (basePathOf q) → body q = Ok Next) →
  no_match r ps → for_of body ps = Ok Next.
Proof.
  intros Hout Hps. induction Hps as [|q ps Hq _ IH]; simpl; [done|].
  by rewrite (Hout q Hq).
Qed.

Lemma block_skip {A} (enabled : bool) (loop : Result (Exit A)) (rest : Result A) :
  (enabled = true → loop = Ok Next) → block enabled loop rest = rest.
Proof. unfold block. destruct enabled; [|done]. by intros ->. Qed.

(** X26: The filter keeps every page that the rules let through: an address
    that starts with the base URL, with one classified route that meets the
    conditions of [kept_by_first_match], is kept as that route.  Together
    with the converse this says which routes are kept, and as what. *)
Theorem classify_complete (o : MyOptions) (props : Props) (u : string)
    (c : Classified) :
  startsWith u (baseUrl props) = true →
  kept_by_first_match o props u [c] →
  classify o props u = Ok [c].
Proof.
  intros Hstart [?|(c' & [= <-] & Hroute & Hurl & H404 & Htype)]; [done|].
  unfold classify. rewrite Hstart. simpl.
  fold (registered props "docusaurus-plugin-content-docs").
  fold (registered props "docusaurus-plugin-content-blog").
  fold (registered props "docusaurus-plugin-content-pages").
  set (r := substring_from (String.length (baseUrl props)) u) in *.
  destruct (String.eqb_spec r "404.html") as [?|_]; [done|].
  destruct c as [cr cu ct]. simpl in *. subst cr cu.
  destruct ct.
  - destruct Htype as (Hon & p & Hfirst & Htags & Hdebug).
    rewrite Hon. unfold block.
    rewrite (loop_first (docsBody r u) r _ p
               [{| route := r; url := u; type := Docs |}]); try done.
    + apply docsBody_outside.
    + destruct Hfirst as (_ & _ & _ & _ & Hbase). unfold docsBody.
      unfold outside, tagsPrefixOf, debugPrefixOf in *.
      by rewrite Hbase, Htags, Hdebug.
  - destruct Htype as (Hon & Hdocs & p & Hfirst & Hne & Htags & Hdebug).
    rewrite block_skip
      by (intros Hd; apply (loop_none _ r); [apply docsBody_outside | auto]).
    rewrite Hon. unfold block.
    rewrite (loop_first (blogBody r u) r _ p
               [{| route := r; url := u; type := Blog |}]); try done.
    + apply blogBody_outside.
    + destruct Hfirst as (_ & _ & _ & _ & Hbase). unfold blogBody.
      unfold outside, tagsPrefixOf, debugPrefixOf in *.
      rewrite Hbase, Htags, Hdebug.
      by destruct (String.eqb_spec r (basePathOf p)).
  - destruct Htype as (Hon & Hdocs & Hblog & p & Hfirst & Hdebug).
    rewrite block_skip
      by (intros Hd; apply (loop_none _ r); [apply docsBody_outside | auto]).
    rewrite block_skip
      by (intros Hd; apply (loop_none _ r); [apply blogBody_outside | auto]).
    rewrite Hon. unfold block.
    rewrite (loop_first (pagesBody r u) r _ p
               [{| route := r; url := u; type := Page |}]); try done.
    + apply pagesBody_outside.
    + destruct Hfirst as (_ & _ & _ & _ & Hbase). unfold pagesBody.
      unfold outside, debugPrefixOf in *. by rewrite Hbase, Hdebug.
Qed.

Lemma site_intro_kept :
  kept_by_first_match Site.defaults Site.props "/docs/intro"
    [{| route := "docs/intro"; url := "/docs/intro"; type := Docs |}].
Proof.
  right. eexists. split; [reflexivity|]. repeat split; try done.
  exists Site.docsPlugin. repeat split; try done.
  exists [], []. repeat split; try done. constructor.
Qed.

Lemma classify_complete_witness :
  classify Site.defaults Site.props "/docs/intro"
  = Ok [{| route := "docs/intro"; url := "/docs/intro"; type := Docs |}].
Proof.
  apply classify_complete; [reflexivity | exact site_intro_kept].
Defined.

(** ** The errors of the hook *)












